(** * tardis_code_compare: the code-comparison exporters

    A shallow embedding of [tardis_code_compare.py].  Python floats are
    modelled by exact rationals ([Q]); every finite double is a rational, so
    the text that [%.6E] prints is modelled exactly, while arithmetic
    ([-], [/], [*]) is the exact one, without rounding.  Quantities carry no
    unit: a simulation stores its explosion time in days and its velocities
    in km/s, the values [.to(units.day).value] and
    [.to(units.km / units.s).value] return.

    Python exceptions are values of [exn]; pure code lives in the error monad
    [result], code that touches a data frame or a file in [M], a state monad
    over the [world] whose state survives an exception. *)

From Stdlib Require Import QArith Qround Qabs Qminmax Qpower Lqa ZArith Lia.
From Stdlib Require Import Strings.String Strings.Ascii DecimalString DecimalNat.
From stdpp Require Import base option list gmap strings.

Local Open Scope Q_scope.
Local Open Scope string_scope.

(** ** Exceptions and the error monad *)

Inductive exn : Type :=
  | ValueError
  | OverflowError
  | IndexError
  | TypeError
  | AttributeError
  | OSError
  | KeyError (key : string).

Inductive result (A : Type) : Type :=
  | Ok (a : A)
  | Raise (e : exn).
Arguments Ok {A} a.
Arguments Raise {A} e.

#[global] Instance result_ret : MRet result := fun A a => Ok a.
#[global] Instance result_bind : MBind result := fun A B f r =>
  match r with
  | Ok a => f a
  | Raise e => Raise e
  end.

(** [[f(x) for x in l]] where [f] may raise: the first exception wins. *)
Fixpoint for_each {A B : Type} (f : A -> result B) (l : list A) : result (list B) :=
  match l with
  | [] => Ok []
  | x :: l' => y ← f x; ys ← for_each f l'; Ok (y :: ys)
  end.

(** ** The numpy functions the exporters call *)

Module np.

(** [np.diff(a)]: [a[i+1] - a[i]]. *)
Definition diff (a : list Q) : list Q :=
  zip_with (fun y x => y - x) (tail a) a.

(** [np.min], [a.min()]: ValueError on an empty array. *)
Definition min (a : list Q) : result Q :=
  match a with
  | [] => Raise ValueError
  | x :: a' => Ok (fold_left Qmin a' x)
  end.

(** [np.max], [a.max()]. *)
Definition max (a : list Q) : result Q :=
  match a with
  | [] => Raise ValueError
  | x :: a' => Ok (fold_left Qmax a' x)
  end.

(** [np.linspace(start, stop, num)] with the default [endpoint=True]:
    [arange(0, num) * step + start] with [step = (stop - start) / (num - 1)],
    the last sample then overwritten by [stop]. *)
Definition linspace (start stop : Q) (num : Z) : result (list Q) :=
  if (num <? 0)%Z then Raise ValueError
  else
    let n := Z.to_nat num in
    let step := (stop - start) / inject_Z (num - 1) in
    let y := List.map (fun i : nat => inject_Z (Z.of_nat i) * step + start) (seq 0 n) in
    Ok (if (1 <? num)%Z then <[Nat.pred n := stop]> y else y).

(** One sample of [np.interp] once [xp[0] <= x <= xp[-1]] is known: the
    segment [xp[j] <= x < xp[j+1]] is looked for from the left (numpy
    bisects, which finds the same segment when [xp] is increasing). *)
Fixpoint interp_segment (x : Q) (xp fp : list Q) : Q :=
  match xp, fp with
  | x0 :: ((x1 :: _) as xp'), f0 :: ((f1 :: _) as fp') =>
      if Qlt_le_dec x x1
      then (if Qeq_bool x0 x then f0
            else (f1 - f0) / (x1 - x0) * (x - x0) + f0)
      else interp_segment x xp' fp'
  | _, f0 :: _ => f0
  | _, [] => 0
  end.

(** One sample of [np.interp(x, xp, fp, left, right)]. *)
Definition interp1 (x : Q) (xp fp : list Q) (left right : Q) : Q :=
  if Qlt_le_dec (List.last xp 0) x then right
  else if Qlt_le_dec x (List.hd 0 xp) then left
  else interp_segment x xp fp.

(** [np.interp(x, xp, fp, left, right)]; [fp = None] is Python's [None]. *)
Definition interp (x xp : list Q) (fp : option (list Q)) (left right : Q)
  : result (list Q) :=
  match fp with
  | None => Raise TypeError
  | Some fp =>
      if decide (xp = []) then Raise ValueError
      else if decide (length xp = length fp)
      then Ok (List.map (fun xi => interp1 xi xp fp left right) x)
      else Raise ValueError
  end.

(** [np.vstack(arrays)]: ValueError without arrays or when their lengths
    differ. *)
Definition vstack (arrays : list (list Q)) : result (list (list Q)) :=
  match arrays with
  | [] => Raise ValueError
  | a :: rest =>
      if forallb (fun b => (length b =? length a)%nat) rest then Ok arrays
      else Raise ValueError
  end.

End np.

(** Python's [round(x)] on a float: to the nearest integer, ties to even. *)
Definition py_round (x : Q) : Z :=
  let f := Qfloor x in
  match Qcompare (x - inject_Z f) (1 # 2) with
  | Lt => f
  | Gt => (f + 1)%Z
  | Eq => if Z.even f then f else (f + 1)%Z
  end.

(** [round(a / b)] for numpy floats [a], [b]: dividing by zero raises nothing
    and gives [nan] or [inf], which [round] then refuses. *)
Definition round_div (a b : Q) : result Z :=
  if Qeq_bool b 0
  then (if Qeq_bool a 0 then Raise ValueError else Raise OverflowError)
  else Ok (py_round (a / b)).

(** ** Simulations *)

Record Simulation : Type := {
  time_explosion : Q;
  v_middle : list Q;
  t_electrons : list Q;
  electron_densities : list Q;
  wavelength : list Q;
  luminosity_density_lambda : list Q
}.

(** ** The shared velocity grid *)

Definition v_middles (simulations : list Simulation) : list (list Q) :=
  List.map v_middle simulations.

Definition min_delta_v (simulations : list Simulation) : result Q :=
  ds ← for_each (fun v => np.min (np.diff v)) (v_middles simulations);
  np.min ds.

Definition v_min (simulations : list Simulation) : result Q :=
  ms ← for_each np.min (v_middles simulations);
  np.min ms.

Definition v_max (simulations : list Simulation) : result Q :=
  ms ← for_each np.max (v_middles simulations);
  np.max ms.

Definition N_shells (lo hi delta : Q) : result Z :=
  r ← round_div (hi - lo) delta;
  Ok (r + 2)%Z.

Definition get_velocity_grid_from_simulations (simulations : list Simulation)
  : result (list Q) :=
  delta ← min_delta_v simulations;
  lo ← v_min simulations;
  hi ← v_max simulations;
  n ← N_shells lo hi delta;
  np.linspace lo hi n.

(** ** Data frames *)

(** A column label: pandas numbers the columns of a frame built from arrays,
    the exporters name the one they insert. *)
Inductive label : Type :=
  | LInt (i : nat)
  | LStr (s : string).

#[global] Instance label_eq_dec : EqDecision label.
Proof. solve_decision. Defined.

(** A cell holds a float or NaN ([None]). *)
Definition cell : Type := option Q.

(** A frame: [index_len] is [len(df)], the number of rows; every column has
    that many cells. *)
Record DataFrame : Type := {
  index_len : nat;
  columns : list (label * list cell)
}.

Definition labels (df : DataFrame) : list label := fst <$> columns df.

Module pd.

Definition pad (n : nat) (a : list Q) : list cell :=
  (Some <$> a) ++ replicate (n - length a) None.

(** [pd.DataFrame(arrays).T]: one numbered column per array, as many rows as
    the longest array has values, shorter arrays filled up with NaN. *)
Definition DataFrame_T (arrays : list (list Q)) : DataFrame :=
  let n := max_list (length <$> arrays) in
  {| index_len := n; columns := imap (fun i a => (LInt i, pad n a)) arrays |}.

(** [df.insert(loc, column, value)]: ValueError when the label is taken or the
    length of [value] is not [len(df)], IndexError when [loc] is out of
    bounds.  A frame with no rows takes its index from a [value] that has
    some, and the columns it had are filled with NaN. *)
Definition insert (loc : nat) (column : label) (value : list Q) (df : DataFrame)
  : result DataFrame :=
  if decide (column ∈ labels df) then Raise ValueError
  else
    let grown := (index_len df =? 0)%nat && (0 <? length value)%nat in
    let n := if grown then length value else index_len df in
    let old := if grown
               then (fun c : label * list cell => (fst c, replicate n (None : cell)))
                      <$> columns df
               else columns df in
    if negb (length value =? n)%nat then Raise ValueError
    else if (length old <? loc)%nat then Raise IndexError
    else Ok {| index_len := n;
               columns := take loc old ++ (column, Some <$> value) :: drop loc old |}.

End pd.

(** ** The world: frames on the heap, files on disk *)

Record world : Type := {
  frames : gmap nat DataFrame;
  files : gmap string string;
  writable : string -> bool
}.

Definition M (A : Type) : Type := world -> result A * world.

#[global] Instance M_ret : MRet M := fun A a w => (Ok a, w).
#[global] Instance M_bind : MBind M := fun A B f m w =>
  match m w with
  | (Ok a, w') => f a w'
  | (Raise e, w') => (Raise e, w')
  end.

Definition lift {A : Type} (r : result A) : M A := fun w => (r, w).
Definition raise {A : Type} (e : exn) : M A := fun w => (Raise e, w).

Definition set_frames (fr : gmap nat DataFrame) (w : world) : world :=
  {| frames := fr; files := files w; writable := writable w |}.

Definition set_files (fs : gmap string string) (w : world) : world :=
  {| frames := frames w; files := fs; writable := writable w |}.

(** A frame the code builds is a new object. *)
Definition new_frame (df : DataFrame) : M nat := fun w =>
  let l := fresh (dom (frames w)) in
  (Ok l, set_frames (<[l := df]> (frames w)) w).

(** [df.insert(loc, column, value)] on the frame at [l], in place. *)
Definition frame_insert (l loc : nat) (column : label) (value : list Q) : M unit := fun w =>
  match frames w !! l with
  | None => (Raise AttributeError, w)
  | Some df =>
      match pd.insert loc column value df with
      | Ok df' => (Ok tt, set_frames (<[l := df']> (frames w)) w)
      | Raise e => (Raise e, w)
      end
  end.

(** ** The exporters *)

Inductive exporter : Type :=
  | Spectral
  | TGas
  | Eden
  | IonFrac
  | PhysicalProperty.

(** What a caller may pass as [data_table]: a frame, a sequence of frames
    (one per time, the block exporters), or [None]. *)
Inductive table : Type :=
  | TNone
  | TFrame (l : nat)
  | TFrames (ls : list nat).

(** The attributes the subclass constructors add. *)
Inductive attrs : Type :=
  | NoAttrs
  | IonFracAttrs (species : string) (vel_mid : list Q) (species_num : nat)
      (column_description : string)
  | PhysAttrs (vel_mid : list Q) (temp rho ne : list (list Q)).

Record OutputFile : Type := {
  cls : exporter;
  times : list Q;
  data_table : table;
  model_name : string;
  extra : attrs
}.

Definition data_type (c : exporter) : string :=
  match c with
  | Spectral => "spectra"
  | TGas => "tgas"
  | Eden => "eden"
  | IonFrac => "ionfrac"
  | PhysicalProperty => "phys"
  end.

Definition first_column_name (c : exporter) : string :=
  match c with
  | Spectral => "WAVE"
  | _ => "VEL"
  end.

(** The class attribute [column_description]. *)
Definition class_column_description (c : exporter) : string :=
  match c with
  | Spectral =>
      "#wavelength[Ang] flux_t0[erg/s/Ang] flux_t1[erg/s/Ang] ... flux_tn[erg/s/Ang]"
  | TGas => "#vel_mid[km/s] Tgas_t0[K] Tgas_t1[K] ... Tgas_tn[K]"
  | Eden => "#vel_mid[km/s] ne_t0[/cm^3] ne_t1[/cm^3] … ne_tn[/cm^3]"
  | IonFrac => "#vel_mid[km/s]"
  | PhysicalProperty => "#vel_mid[km/s] temp[K] rho[gcc] ne[/cm^3] natom[/cm^3]"
  end.

(** [self.column_description]: the instance attribute when the constructor
    set one, the class attribute otherwise. *)
Definition column_description (o : OutputFile) : string :=
  match extra o with
  | IonFracAttrs _ _ _ d => d
  | _ => class_column_description (cls o)
  end.

(** The fill value of [np.interp], [1e-99]. *)
Definition sentinel : Q := 1 # (10 ^ 99).

(** [str(i)] for a non-negative int. *)
Definition str_nat (n : nat) : string := NilEmpty.string_of_uint (Nat.to_uint n).

Module CodeComparisonOutputFile.

Definition __init__ (c : exporter) (times : list Q) (data_table : table)
    (model_name : string) (data_first_column : option (list Q)) : M OutputFile :=
  _ ← match data_first_column with
      | None => mret tt
      | Some column =>
          match data_table with
          | TFrame l => frame_insert l 0 (LStr "wav") column
          | TFrames _ => raise TypeError
          | TNone => raise AttributeError
          end
      end;
  mret {| cls := c; times := times; data_table := data_table;
          model_name := model_name; extra := NoAttrs |}.

Definition get_times_from_simulations (simulations : list Simulation) : list Q :=
  time_explosion <$> simulations.

End CodeComparisonOutputFile.

Module SpectralOutputFile.

Definition get_data_first_column (simulations : list Simulation) : result (list Q) :=
  match simulations with
  | [] => Raise IndexError
  | sim :: _ => Ok (wavelength sim)
  end.

Definition get_data_table (simulations : list Simulation) : M table :=
  let spectra := luminosity_density_lambda <$> simulations in
  l ← new_frame (pd.DataFrame_T spectra);
  mret (TFrame l).

End SpectralOutputFile.

Module VelocityInterpolatedOutputFile.

(** [get_interpolation_values]: [None] unless the class overrides it. *)
Definition get_interpolation_values (c : exporter) (sim : Simulation) : option (list Q) :=
  match c with
  | TGas => Some (t_electrons sim)
  | Eden => Some (electron_densities sim)
  | _ => None
  end.

Definition get_data_first_column (simulations : list Simulation) : result (list Q) :=
  get_velocity_grid_from_simulations simulations.

(** The columns of the table, one per simulation, before they are stacked. *)
Definition interpolated_values (c : exporter) (simulations : list Simulation)
  : result (list (list Q)) :=
  v_interp ← get_data_first_column simulations;
  for_each (fun sim =>
              let v := v_middle sim in
              let interpolation_values := get_interpolation_values c sim in
              np.interp v_interp v interpolation_values sentinel sentinel)
    simulations.

Definition get_data_table (c : exporter) (simulations : list Simulation) : M table :=
  values ← lift (interpolated_values c simulations);
  stacked ← lift (np.vstack values);
  l ← new_frame (pd.DataFrame_T stacked);
  mret (TFrame l).

End VelocityInterpolatedOutputFile.

Module IonFracOutputFile.

(** The names of the stage columns, [species + str(i)] for [i] in
    [range(species_num)]. *)
Definition ion_column_names (species : string) (species_num : nat) : list string :=
  (fun i => species ++ str_nat i) <$> seq 0 species_num.

Definition __init__ (name_zz : gmap string nat) (times : list Q) (data_table : table)
    (model_name : string) (data_first_column : option (list Q))
    (vel_mid : list Q) (species : string) : M OutputFile :=
  o ← CodeComparisonOutputFile.__init__ IonFrac times data_table model_name
        data_first_column;
  match name_zz !! species with
  | None => raise (KeyError species)
  | Some species_num =>
      let ion_columns := String.concat " " (ion_column_names species species_num) in
      mret {| cls := cls o; times := times; data_table := data_table;
              model_name := model_name;
              extra := IonFracAttrs species vel_mid species_num
                         (String.concat " " [class_column_description IonFrac;
                                             ion_columns]) |}
  end.

End IonFracOutputFile.

Module PhysicalPropertyOutputFile.

Definition __init__ (times : list Q) (data_table : table) (model_name : string)
    (data_first_column : option (list Q))
    (vel_mid : list Q) (temp rho ne : list (list Q)) : M OutputFile :=
  o ← CodeComparisonOutputFile.__init__ PhysicalProperty times data_table model_name
        data_first_column;
  mret {| cls := cls o; times := times; data_table := data_table;
          model_name := model_name; extra := PhysAttrs vel_mid temp rho ne |}.

End PhysicalPropertyOutputFile.

(** ** The factory *)

(** [cls.get_data_table(simulations)]. *)
Definition get_data_table (c : exporter) (simulations : list Simulation) : M table :=
  match c with
  | Spectral => SpectralOutputFile.get_data_table simulations
  | _ => VelocityInterpolatedOutputFile.get_data_table c simulations
  end.

(** [cls.get_data_first_column(simulations)]. *)
Definition get_data_first_column (c : exporter) (simulations : list Simulation)
  : result (list Q) :=
  match c with
  | Spectral => SpectralOutputFile.get_data_first_column simulations
  | _ => VelocityInterpolatedOutputFile.get_data_first_column simulations
  end.

(** [cls(times, data_table, model_name, data_first_column)]: the constructors
    of the block exporters take more arguments than these four, none with a
    default but [species]. *)
Definition call_cls (c : exporter) (times : list Q) (data_table : table)
    (model_name : string) (data_first_column : option (list Q)) : M OutputFile :=
  match c with
  | IonFrac | PhysicalProperty => raise TypeError
  | _ => CodeComparisonOutputFile.__init__ c times data_table model_name
           data_first_column
  end.

Definition from_simulations (c : exporter) (simulations : list Simulation)
    (model_name : string) : M OutputFile :=
  let times := CodeComparisonOutputFile.get_times_from_simulations simulations in
  data_table ← get_data_table c simulations;
  data_first_column ← lift (get_data_first_column c simulations);
  call_cls c times data_table model_name (Some data_first_column).

(** ** Reading a header or a file back *)

(** [c in s]. *)
Fixpoint has_char (c : ascii) (s : string) : bool :=
  match s with
  | EmptyString => false
  | String a s' => Ascii.eqb a c || has_char c s'
  end.

(** [s.split(sep)] for a separator of one character. *)
Fixpoint split_on (sep : ascii) (s : string) : list string :=
  match s with
  | EmptyString => [EmptyString]
  | String a s' =>
      if Ascii.eqb a sep then EmptyString :: split_on sep s'
      else match split_on sep s' with
           | t :: ts => String a t :: ts
           | [] => [String a EmptyString]
           end
  end.

Definition nonempty (s : string) : bool :=
  match s with
  | EmptyString => false
  | String _ _ => true
  end.

(** The columns of a line: what stands between its spaces. *)
Definition words (s : string) : list string :=
  List.filter nonempty (split_on " " s).

(** ** Printing a float: [%.6E] *)

Definition pow10 (e : Z) : Q := Qpower 10 e.

(** The decimal exponent of [a > 0]: the [e] with [10^e <= a < 10^(e+1)],
    looked for upwards from 0 or downwards from -1.  The fuel is the number
    of binary digits of the numerator or of the denominator, which bounds
    the number of decimal ones. *)
Fixpoint exponent_up (fuel : nat) (a : Q) (e : Z) : Z :=
  match fuel with
  | O => e
  | S fuel' =>
      if Qlt_le_dec a (pow10 (e + 1)) then e else exponent_up fuel' a (e + 1)
  end.

Fixpoint exponent_down (fuel : nat) (a : Q) (e : Z) : Z :=
  match fuel with
  | O => e
  | S fuel' =>
      if Qlt_le_dec a (pow10 e) then exponent_down fuel' a (e - 1) else e
  end.

Definition exponent10 (a : Q) : Z :=
  if Qlt_le_dec a 1
  then exponent_down (S (Z.to_nat (Z.log2 (Z.pos (Qden a))))) a (-1)
  else exponent_up (S (Z.to_nat (Z.log2 (Qnum a)))) a 0.

(** The digits and the exponent [printf] prints for [a >= 0] with [prec]
    digits after the point: [a] is rounded to [prec + 1] significant digits,
    ties to even, and a mantissa that rounds up to [10^(prec+1)] moves to
    the next exponent. *)
Definition sci_round (prec : nat) (a : Q) : Z * Z :=
  if Qeq_bool a 0 then (0, 0)%Z
  else
    let e := exponent10 a in
    let m := py_round (a * pow10 (Z.of_nat prec - e)) in
    if (m =? 10 ^ (Z.of_nat prec + 1))%Z
    then (10 ^ Z.of_nat prec, e + 1)%Z
    else (m, e).

Definition digit_char (d : Z) : ascii := ascii_of_nat (48 + Z.to_nat d).

(** The last [k] decimal digits of [n], in front of [acc]. *)
Fixpoint fixed_digits (k : nat) (n : Z) (acc : string) : string :=
  match k with
  | O => acc
  | S k' => fixed_digits k' (n / 10) (String (digit_char (n mod 10)) acc)
  end.

(** [d.ddd]: one digit, the point, [prec] digits; no point without them. *)
Definition mantissa_string (prec : nat) (m : Z) : string :=
  match fixed_digits (S prec) m EmptyString with
  | String d rest =>
      String d (match prec with O => rest | S _ => String "." rest end)
  | EmptyString => EmptyString
  end.

(** The exponent: a sign, then at least two digits. *)
Definition exponent_string (e : Z) : string :=
  (if (e <? 0)%Z then "-" else "+")
  ++ (if (Z.abs e <? 10)%Z then "0" else "")
  ++ str_nat (Z.abs_nat e).

(** ['%.<prec>E' % x]. *)
Definition format_E (prec : nat) (x : Q) : string :=
  let (m, e) := sci_round prec (Qabs x) in
  (if Qlt_le_dec x 0 then "-" else "")
  ++ mantissa_string prec m ++ "E" ++ exponent_string e.

(** The number a printed mantissa and exponent stand for. *)
Definition sci_value (prec : nat) (m e : Z) : Q :=
  inject_Z m * pow10 (e - Z.of_nat prec).

(** ** Writing a frame: [to_csv] *)

Definition newline : string := String "010" EmptyString.
Definition quote : string := String "034" EmptyString.

(** A cell of the file: NaN is written as nothing ([na_rep='']). *)
Definition format_cell (float_format : Q -> string) (c : cell) : string :=
  match c with
  | Some x => float_format x
  | None => EmptyString
  end.

(** Row [i] of a frame, column by column. *)
Definition row (df : DataFrame) (i : nat) : list cell :=
  (fun col : label * list cell => default None (snd col !! i)) <$> columns df.

Definition rows (df : DataFrame) : list (list cell) :=
  row df <$> seq 0 (index_len df).

(** One line of the csv writer, without its end: the fields joined by the
    separator; a row that is one empty field is written as two quotes. *)
Definition csv_line (fields : list string) : string :=
  match fields with
  | [EmptyString] => quote ++ quote
  | _ => String.concat " " fields
  end.

(** The lines, each followed by the line terminator. *)
Definition write_lines (lines : list string) : string :=
  foldr (fun line text => line ++ newline ++ text) EmptyString lines.

(** [df.to_csv(f, index=False, float_format=..., sep=' ', header=False)]:
    the text it writes to [f], one line per row, in the order of the rows. *)
Definition to_csv (float_format : Q -> string) (df : DataFrame) : string :=
  write_lines ((fun r => csv_line (format_cell float_format <$> r)) <$> rows df).

(** ** Files *)

(** [os.path.join(dest, fname)] for a relative [fname]. *)
Definition path_join (dest fname : string) : string :=
  match dest with
  | EmptyString => fname
  | _ => if String.eqb (substring (String.length dest - 1) 1 dest) "/"
         then dest ++ fname
         else dest ++ "/" ++ fname
  end.

(** [open(path, mode='w+')]: the file is created or emptied. *)
Definition open_w (path : string) : M unit := fun w =>
  if writable w path
  then (Ok tt, set_files (<[path := EmptyString]> (files w)) w)
  else (Raise OSError, w).

(** [f.write(text)]. *)
Definition f_write (path text : string) : M unit := fun w =>
  (Ok tt, set_files (<[path := default EmptyString (files w !! path) ++ text]> (files w)) w).

(** [len(self.data_table)]. *)
Definition len_table (t : table) : M nat := fun w =>
  match t with
  | TNone => (Raise TypeError, w)
  | TFrame l =>
      match frames w !! l with
      | Some df => (Ok (index_len df), w)
      | None => (Raise AttributeError, w)
      end
  | TFrames ls => (Ok (length ls), w)
  end.

(** [self.data_table.to_csv(f, ...)]. *)
Definition table_to_csv (float_format : Q -> string) (path : string) (t : table)
  : M unit := fun w =>
  match t with
  | TFrame l =>
      match frames w !! l with
      | Some df => f_write path (to_csv float_format df) w
      | None => (Raise AttributeError, w)
      end
  | _ => (Raise AttributeError, w)
  end.

Module Writer.

(** The methods of [CodeComparisonOutputFile] that write; [str_float] is
    Python's [str] on a float. *)
Section Write.

Variable str_float : Q -> string.

Definition times_str (o : OutputFile) : string :=
  String.concat " " (str_float <$> times o).

Definition fname (o : OutputFile) : string :=
  data_type (cls o) ++ "_" ++ model_name o ++ "_tardis.txt".

Definition write (o : OutputFile) (dest : string) : M unit :=
  let path := path_join dest (fname o) in
  _ ← open_w path;
  _ ← f_write path ("#NTIMES: " ++ str_nat (length (times o)) ++ newline);
  n ← len_table (data_table o);
  _ ← f_write path ("#N" ++ first_column_name (cls o) ++ ": " ++ str_nat n ++ newline);
  _ ← f_write path ("#TIMES[d]: " ++ times_str o ++ newline);
  _ ← f_write path (column_description o ++ newline);
  table_to_csv (format_E 6) path (data_table o).

End Write.

End Writer.

(** ** Reading a file back *)

Definition digit_value (c : ascii) : option Z :=
  let n := nat_of_ascii c in
  if (48 <=? n)%nat && (n <=? 57)%nat then Some (Z.of_nat (n - 48)) else None.

(** Every character of [s] is a decimal digit. *)
Fixpoint all_digits (s : string) : bool :=
  match s with
  | EmptyString => true
  | String c s' =>
      match digit_value c with
      | Some _ => all_digits s'
      | None => false
      end
  end.

(** The number a string of digits stands for, after the digits [acc]. *)
Fixpoint digits_acc (s : string) (acc : Z) : option Z :=
  match s with
  | EmptyString => Some acc
  | String c s' =>
      match digit_value c with
      | Some d => digits_acc s' (10 * acc + d)
      | None => None
      end
  end.

Definition digits_value (s : string) : option Z :=
  match s with
  | EmptyString => None
  | _ => digits_acc s 0
  end.

(** An integer with an optional sign. *)
Definition signed_value (s : string) : option Z :=
  match s with
  | String "-" s' => Z.opp <$> digits_value s'
  | String "+" s' => digits_value s'
  | _ => digits_value s
  end.

(** A mantissa [ddd] or [ddd.ddd]: its digits as an integer, and the number
    of digits after the point. *)
Definition mantissa_value (s : string) : option (Z * nat) :=
  match split_on "." s with
  | [int_part] => (fun m => (m, 0%nat)) <$> digits_value int_part
  | [int_part; frac_part] =>
      (fun m => (m, String.length frac_part)) <$> digits_value (int_part ++ frac_part)
  | _ => None
  end.

Definition unsigned_float (s : string) : option Q :=
  match split_on "E" s with
  | [mantissa] =>
      '(m, k) ← mantissa_value mantissa;
      Some (inject_Z m * pow10 (- Z.of_nat k))
  | [mantissa; exponent] =>
      '(m, k) ← mantissa_value mantissa;
      e ← signed_value exponent;
      Some (inject_Z m * pow10 (e - Z.of_nat k))
  | _ => None
  end.

(** [float(s)] for a decimal number with an optional exponent. *)
Definition parse_float (s : string) : option Q :=
  match s with
  | String "-" s' => Qopp <$> unsigned_float s'
  | _ => unsigned_float s
  end.

Definition is_comment (s : string) : bool :=
  match s with
  | String "#" _ => true
  | _ => false
  end.

(** The lines of a file that hold data: neither empty nor a comment. *)
Definition data_lines (content : string) : list string :=
  List.filter (fun ln => nonempty ln && negb (is_comment ln)) (split_on "010" content).

(** The body of a file, read back: one list of numbers per data line, or
    [None] when some field is no number. *)
Definition parse_body (content : string) : option (list (list Q)) :=
  mapM (fun ln => mapM parse_float (words ln)) (data_lines content).

Definition sim_of_v (v : list Q) : Simulation :=
  {| time_explosion := 0; v_middle := v; t_electrons := [];
     electron_densities := []; wavelength := []; luminosity_density_lambda := [] |}.

(** Two simulations with every field filled in. *)
Definition two_simulations : list Simulation :=
  [ {| time_explosion := 2; v_middle := [1000; 2000; 3000];
       t_electrons := [10000; 9000; 8000]; electron_densities := [300; 200; 100];
       wavelength := [4000; 5000]; luminosity_density_lambda := [7; 8] |};
    {| time_explosion := 3; v_middle := [1500; 2500; 3500; 4500];
       t_electrons := [9500; 8500; 7500; 6500]; electron_densities := [250; 150; 50; 5];
       wavelength := [4000; 5000]; luminosity_density_lambda := [9; 10] |} ].

Definition empty_world : world :=
  {| frames := ∅; files := ∅; writable := fun _ => true |}.

Definition scenario : list Simulation :=
  [ sim_of_v [1000; 2000; 3000]; sim_of_v [1500; 2500; 3500; 4500] ].

(** [increasing v]: every element is smaller than its successor. *)
Fixpoint increasing (v : list Q) : Prop :=
  match v with
  | x :: ((y :: _) as v') => x < y /\ increasing v'
  | _ => True
  end.

(** What the inputs of the grid claims look like. *)
Definition well_shaped (simulations : list Simulation) : Prop :=
  simulations <> [] /\
  forall s, s ∈ simulations ->
    increasing (v_middle s) /\ (2 <= length (v_middle s))%nat.

(** [m] is the least element found in any of the arrays [vs]. *)
Definition least_of (vs : list (list Q)) (m : Q) : Prop :=
  (exists v, v ∈ vs /\ m ∈ v) /\ (forall v x, v ∈ vs -> x ∈ v -> m <= x).

Definition greatest_of (vs : list (list Q)) (m : Q) : Prop :=
  (exists v, v ∈ vs /\ m ∈ v) /\ (forall v x, v ∈ vs -> x ∈ v -> x <= m).

(** [x] lies outside the range of the array [v]. *)
Definition outside (v : list Q) (x : Q) : Prop :=
  (forall a, a ∈ v -> x < a) \/ (forall a, a ∈ v -> a < x).

(** [x] lies between the least and the greatest value of [v]. *)
Definition inside (v : list Q) (x : Q) : Prop :=
  exists lo hi, lo ∈ v /\ hi ∈ v /\ lo <= x <= hi.

(** [y] is the value at [x] of the line through two neighbouring samples
    [(xp[j], fp[j])] and [(xp[j+1], fp[j+1])] that enclose [x]. *)
Definition linear_between (xp fp : list Q) (x y : Q) : Prop :=
  exists (j : nat) x0 x1 f0 f1,
    xp !! j = Some x0 /\ xp !! S j = Some x1 /\
    fp !! j = Some f0 /\ fp !! S j = Some f1 /\
    x0 <= x <= x1 /\
    y == f0 + (f1 - f0) / (x1 - x0) * (x - x0).

(** The grid [g] starts at [lo] and ends at [hi]. *)
Definition spans (g : list Q) (lo hi : Q) : Prop :=
  exists a b, head g = Some a /\ last g = Some b /\ a == lo /\ b == hi.

(** Successive samples of [g] are at most [d] apart. *)
Definition spacing_at_most (g : list Q) (d : Q) : Prop :=
  forall (i : nat) a b, g !! i = Some a -> g !! S i = Some b -> b - a <= d.

(** The samples of one simulation on the grid [g]. *)
Definition samples (c : exporter) (g : list Q) (sim : Simulation) : list Q :=
  (fun x => np.interp1 x (v_middle sim)
              (default [] (VelocityInterpolatedOutputFile.get_interpolation_values c sim))
              sentinel sentinel) <$> g.

Definition has_values (c : exporter) (simulations : list Simulation) : Prop :=
  forall s, s ∈ simulations ->
    exists fp, VelocityInterpolatedOutputFile.get_interpolation_values c s = Some fp /\
               length fp = length (v_middle s).

(** The input on which the factory of a class is expected to work. *)
Definition well_formed (c : exporter) (simulations : list Simulation) : Prop :=
  match c with
  | Spectral =>
      exists sim, head simulations = Some sim /\
        forall s, s ∈ simulations ->
          length (luminosity_density_lambda s) = length (wavelength sim)
  | TGas | Eden => well_shaped simulations /\ has_values c simulations
  | IonFrac | PhysicalProperty => True
  end.

(** A world whose heap holds one frame, of one column and two rows. *)
Definition one_frame : DataFrame :=
  {| index_len := 2; columns := [(LInt 0, [Some 7; Some 8])] |}.

Definition world_with_frame : world :=
  {| frames := {[ 0%nat := one_frame ]}; files := ∅; writable := fun _ => true |}.

(** A few entries of [nucname.name_zz], the table of atomic numbers. *)
Definition name_zz_excerpt : gmap string nat :=
  {[ "H" := 1%nat; "He" := 2%nat; "C" := 6%nat; "Ca" := 20%nat; "Fe" := 26%nat ]}.

(** [v] agrees with [x] to [digits] significant digits: they differ by at
    most half a unit of the [digits]-th significant digit of [x]. *)
Definition agree_to (digits : nat) (x v : Q) : Prop :=
  (x == 0 -> v == 0) /\
  (~ x == 0 ->
   Qabs (v - x) <= (1 # 2) * pow10 (exponent10 (Qabs x) + 1 - Z.of_nat digits)).

(** A character that no printed float holds. *)
Definition not_in_float (c : ascii) : Prop :=
  digit_value c = None /\ c <> "-"%char /\ c <> "+"%char /\ c <> "."%char /\
  c <> "E"%char.

(** The digits of the mantissa of a printed float: what stands before the
    [E], the sign and the point left out. *)
Fixpoint count_digits (s : string) : nat :=
  match s with
  | EmptyString => 0
  | String c s' =>
      match digit_value c with
      | Some _ => S (count_digits s')
      | None => count_digits s'
      end
  end.

Definition significant_digits (s : string) : nat :=
  match split_on "E" s with
  | mantissa :: _ => count_digits mantissa
  | [] => 0
  end.

(** The classes that keep the writer of the base class. *)
Definition base_format (c : exporter) : Prop :=
  c = Spectral \/ c = TGas \/ c = Eden.

(** The file at [path] holds [content]. *)
Definition with_file (path content : string) (w : world) : world :=
  set_files (<[path := content]> (files w)) w.

(** The comment lines of a file, in the order they are written. *)
Definition header_lines (str_float : Q -> string) (o : OutputFile) (n : nat)
  : list string :=
  [ "#NTIMES: " ++ str_nat (length (times o));
    "#N" ++ first_column_name (cls o) ++ ": " ++ str_nat n;
    "#TIMES[d]: " ++ String.concat " " (str_float <$> times o);
    column_description o ].

(** The lines of the body: the cells of a row, printed and joined. *)
Definition body_lines (df : DataFrame) : list string :=
  (fun r => csv_line (format_cell (format_E 6) <$> r)) <$> rows df.

(** What [%.<prec>E] makes of [x]: the number its text stands for. *)
Definition rounded (prec : nat) (x : Q) : Q :=
  let (m, e) := sci_round prec (Qabs x) in
  if Qlt_le_dec x 0 then - sci_value prec m e else sci_value prec m e.

(** The rows of a table given by its columns, [n] values each. *)
Definition table_rows (cols : list (list Q)) (n : nat) : list (list Q) :=
  (fun i => (fun col : list Q => nth i col 0) <$> cols) <$> seq 0 n.

(** One simulation whose values need all the digits that are printed. *)
Definition one_simulation : list Simulation :=
  [ {| time_explosion := 2; v_middle := [1000; 2000];
       t_electrons := [10000; 9000]; electron_densities := [300; 200];
       wavelength := [1234567 # 1000; 5000]; luminosity_density_lambda := [2 # 3; 8] |} ].

(** Python's [str] on the explosion time of [one_simulation]. *)
Definition str_two (t : Q) : string := "2.0".

(** A spectra exporter over the frame of [world_with_frame]. *)
Definition spectral_object : OutputFile :=
  {| cls := Spectral; times := [2]; data_table := TFrame 0; model_name := "model";
     extra := NoAttrs |}.

(** The frame the factory leaves behind: the first column under [wav], then
    one numbered column per simulation. *)
Definition frame_of_columns (first : list Q) (others : list (list Q)) : DataFrame :=
  {| index_len := length first;
     columns := (LStr "wav", (Some <$> first : list cell))
                  :: imap (fun i a => (LInt i, (Some <$> a : list cell))) others |}.

(** A world whose heap holds the table of a spectra exporter. *)
Definition world_with_table : world :=
  {| frames := {[ 0%nat := frame_of_columns [4000; 5000] [[7; 8]] ]};
     files := ∅; writable := fun _ => true |}.

(** The worlds that differ from [w] at most in the file at [path]. *)
Definition same_but_file (path : string) (w w' : world) : Prop :=
  frames w' = frames w /\ writable w' = writable w /\
  forall p, p <> path -> files w' !! p = files w !! p.

(** The computation [m] keeps the property [P] of the world, whether it
    returns or raises. *)
Definition preserves {A : Type} (P : world -> Prop) (m : M A) : Prop :=
  forall w, P w -> P (snd (m w)).

(** An exporter built without a table. *)
Definition tableless_object : OutputFile :=
  {| cls := TGas; times := [2]; data_table := TNone; model_name := "model";
     extra := NoAttrs |}.

(** What a caller of a constructor or of the factory keeps: the files, and
    every frame but the one at [l]. *)
Definition same_but_frame (l : nat) (w w' : world) : Prop :=
  files w' = files w /\ writable w' = writable w /\
  forall l', l' <> l -> frames w' !! l' = frames w !! l'.

(** A simulation whose wavelength array is longer than its luminosity array. *)
Definition uneven_simulation : Simulation :=
  {| time_explosion := 2; v_middle := [1000; 2000]; t_electrons := [];
     electron_densities := []; wavelength := [4000; 5000; 6000];
     luminosity_density_lambda := [7; 8] |}.

(** [get_data_table] returns a new frame [df], built on the grid [g]. *)
Definition builds_table (c : exporter) (simulations : list Simulation) (w : world)
    (g : list Q) (df : DataFrame) : Prop :=
  get_velocity_grid_from_simulations simulations = Ok g /\
  VelocityInterpolatedOutputFile.get_data_table c simulations w
  = (Ok (TFrame (fresh (dom (frames w)))),
     set_frames (<[fresh (dom (frames w)) := df]> (frames w)) w).

(** The column of the table [df] that belongs to simulation [i]. *)
Definition column_of (df : DataFrame) (i : nat) (col : list Q) : Prop :=
  columns df !! i = Some (LInt i, (Some <$> col : list cell)).

(** Two simulations, the second with a spectrum one value short. *)
Definition ragged_simulations : list Simulation :=
  [ {| time_explosion := 2; v_middle := [1000; 2000]; t_electrons := [];
       electron_densities := []; wavelength := [4000; 5000];
       luminosity_density_lambda := [7; 8] |};
    {| time_explosion := 3; v_middle := [1000; 2000]; t_electrons := [];
       electron_densities := []; wavelength := [4000; 5000];
       luminosity_density_lambda := [9] |} ].
(** * Properties *)

(** ** The error monad *)

Lemma for_each_ok {A B : Type} (f : A -> result B) (P : A -> B -> Prop) (l : list A) :
  (forall x, x ∈ l -> exists y, f x = Ok y /\ P x y) ->
  exists ys, for_each f l = Ok ys /\ Forall2 P l ys.
Proof.
  induction l as [|x l IH]; intros H.
  - exists []. split; [reflexivity | constructor].
  - destruct (H x) as (y & Hy & HP); [left |].
    destruct IH as (ys & Hys & HF).
    { intros z Hz. apply H. now right. }
    exists (y :: ys). cbn. rewrite Hy. cbn. rewrite Hys. cbn.
    split; [reflexivity | now constructor].
Qed.

(** ** Minimum and maximum of an array *)

Lemma fold_Qmin_spec (l : list Q) (x : Q) :
  fold_left Qmin l x ∈ x :: l /\ (forall y, y ∈ x :: l -> fold_left Qmin l x <= y).
Proof.
  revert x. induction l as [|a l IH]; intros x; cbn.
  - split; [left |]. intros y Hy. apply list_elem_of_singleton in Hy. subst. apply Qle_refl.
  - destruct (IH (Qmin x a)) as [Hin Hle]. split.
    + apply elem_of_cons in Hin as [-> | Hin].
      * unfold Qmin, GenericMinMax.gmin. destruct (x ?= a)%Q; [left | left | right; left].
      * right. now right.
    + intros y Hy.
      assert (Hm : fold_left Qmin l (Qmin x a) <= Qmin x a) by (apply Hle; left).
      apply elem_of_cons in Hy as [-> | Hy].
      * eapply Qle_trans; [exact Hm | apply Q.le_min_l].
      * apply elem_of_cons in Hy as [-> | Hy].
        -- eapply Qle_trans; [exact Hm | apply Q.le_min_r].
        -- apply Hle. now right.
Qed.

Lemma fold_Qmax_spec (l : list Q) (x : Q) :
  fold_left Qmax l x ∈ x :: l /\ (forall y, y ∈ x :: l -> y <= fold_left Qmax l x).
Proof.
  revert x. induction l as [|a l IH]; intros x; cbn.
  - split; [left |]. intros y Hy. apply list_elem_of_singleton in Hy. subst. apply Qle_refl.
  - destruct (IH (Qmax x a)) as [Hin Hle]. split.
    + apply elem_of_cons in Hin as [-> | Hin].
      * unfold Qmax, GenericMinMax.gmax. destruct (x ?= a)%Q; [left | right; left | left].
      * right. now right.
    + intros y Hy.
      assert (Hm : Qmax x a <= fold_left Qmax l (Qmax x a)) by (apply Hle; left).
      apply elem_of_cons in Hy as [-> | Hy].
      * eapply Qle_trans; [apply Q.le_max_l | exact Hm].
      * apply elem_of_cons in Hy as [-> | Hy].
        -- eapply Qle_trans; [apply Q.le_max_r | exact Hm].
        -- apply Hle. now right.
Qed.

Lemma np_min_ok (a : list Q) :
  a <> [] -> exists m, np.min a = Ok m /\ m ∈ a /\ (forall y, y ∈ a -> m <= y).
Proof.
  destruct a as [|x a]; [congruence | intros _].
  exists (fold_left Qmin a x). split; [reflexivity | apply fold_Qmin_spec].
Qed.

Lemma np_max_ok (a : list Q) :
  a <> [] -> exists m, np.max a = Ok m /\ m ∈ a /\ (forall y, y ∈ a -> y <= m).
Proof.
  destruct a as [|x a]; [congruence | intros _].
  exists (fold_left Qmax a x). split; [reflexivity | apply fold_Qmax_spec].
Qed.

(** The minimum of the per-array minima is the least element of all arrays. *)
Lemma min_of_mins (h : list Q -> list Q) (vs : list (list Q)) :
  vs <> [] -> (forall v, v ∈ vs -> h v <> []) ->
  exists m, (ds ← for_each (fun v => np.min (h v)) vs; np.min ds) = Ok m /\
            least_of (List.map h vs) m.
Proof.
  intros Hne Hh.
  destruct (for_each_ok (fun v => np.min (h v))
              (fun v m => m ∈ h v /\ forall y, y ∈ h v -> m <= y) vs)
    as (ds & Hds & HF).
  { intros v Hv. destruct (np_min_ok (h v) (Hh v Hv)) as (m & ? & ? & ?). eauto. }
  assert (Hdne : ds <> []).
  { intros ->. inversion HF. congruence. }
  destruct (np_min_ok ds Hdne) as (m & Hm & Hin & Hle).
  exists m. rewrite Hds. cbn. split; [exact Hm |]. split.
  - apply list_elem_of_lookup in Hin as [i Hi].
    destruct (Forall2_lookup_r _ _ _ _ _ HF Hi) as (v & Hv & Hmv & _).
    exists (h v). split; [| exact Hmv].
    apply list_elem_of_fmap. exists v. split; [reflexivity |].
    apply list_elem_of_lookup. eauto.
  - intros hv x Hhv Hx.
    apply list_elem_of_fmap in Hhv as (v & -> & Hv).
    apply list_elem_of_lookup in Hv as [i Hi].
    destruct (Forall2_lookup_l _ _ _ _ _ HF Hi) as (d & Hd & _ & Hdle).
    eapply Qle_trans; [apply Hle | apply Hdle, Hx].
    apply list_elem_of_lookup. eauto.
Qed.

Lemma max_of_maxs (vs : list (list Q)) :
  vs <> [] -> (forall v, v ∈ vs -> v <> []) ->
  exists m, (ms ← for_each np.max vs; np.max ms) = Ok m /\ greatest_of vs m.
Proof.
  intros Hne Hh.
  destruct (for_each_ok np.max
              (fun v m => m ∈ v /\ forall y, y ∈ v -> y <= m) vs)
    as (ds & Hds & HF).
  { intros v Hv. destruct (np_max_ok v (Hh v Hv)) as (m & ? & ? & ?). eauto. }
  assert (Hdne : ds <> []).
  { intros ->. inversion HF. congruence. }
  destruct (np_max_ok ds Hdne) as (m & Hm & Hin & Hle).
  exists m. rewrite Hds. cbn. split; [exact Hm |]. split.
  - apply list_elem_of_lookup in Hin as [i Hi].
    destruct (Forall2_lookup_r _ _ _ _ _ HF Hi) as (v & Hv & Hmv & _).
    exists v. split; [| exact Hmv]. apply list_elem_of_lookup. eauto.
  - intros v x Hv Hx.
    apply list_elem_of_lookup in Hv as [i Hi].
    destruct (Forall2_lookup_l _ _ _ _ _ HF Hi) as (d & Hd & _ & Hdle).
    eapply Qle_trans; [apply Hdle, Hx | apply Hle].
    apply list_elem_of_lookup. eauto.
Qed.

(** ** Successive differences of an increasing array *)

Lemma diff_cons2 (x y : Q) (v : list Q) :
  np.diff (x :: y :: v) = (y - x) :: np.diff (y :: v).
Proof. reflexivity. Qed.

Lemma increasing_head_lt (x : Q) (v : list Q) :
  increasing (x :: v) -> forall y, y ∈ v -> x < y.
Proof.
  revert x. induction v as [|a v IH]; intros x Hinc y Hy.
  - inversion Hy.
  - destruct Hinc as [Hxa Hinc].
    apply elem_of_cons in Hy as [-> | Hy]; [exact Hxa |].
    eapply Qlt_trans; [exact Hxa | now apply IH].
Qed.

Lemma diff_increasing (v : list Q) :
  increasing v ->
  forall d, d ∈ np.diff v -> exists a b, a ∈ v /\ b ∈ v /\ a < b /\ d = b - a.
Proof.
  induction v as [|x [|y v] IH]; intros Hinc d Hd.
  - inversion Hd.
  - inversion Hd.
  - rewrite diff_cons2 in Hd. destruct Hinc as [Hxy Hinc].
    apply elem_of_cons in Hd as [-> | Hd].
    + exists x, y. repeat split; [left | right; left | exact Hxy].
    + destruct (IH Hinc d Hd) as (a & b & Ha & Hb & Hab & ->).
      exists a, b. repeat split; [now right | now right | exact Hab].
Qed.

Lemma diff_nonempty (v : list Q) : (2 <= length v)%nat -> np.diff v <> [].
Proof. destruct v as [|x [|y v]]; cbn; [lia | lia | discriminate]. Qed.

(** ** Rounding *)

Lemma py_round_lower (x : Q) : x - (1 # 2) <= inject_Z (py_round x).
Proof.
  unfold py_round. cbv zeta.
  pose proof (Qfloor_le x) as Hlo. pose proof (Qlt_floor x) as Hhi.
  rewrite inject_Z_plus in Hhi.
  destruct (Qcompare (x - inject_Z (Qfloor x)) (1 # 2)) eqn:Hc.
  - apply Qeq_alt in Hc.
    destruct (Z.even (Qfloor x)); [| rewrite inject_Z_plus]; lra.
  - apply Qlt_alt in Hc. lra.
  - rewrite inject_Z_plus. lra.
Qed.

Lemma py_round_upper (x : Q) : inject_Z (py_round x) <= x + (1 # 2).
Proof.
  unfold py_round. cbv zeta.
  pose proof (Qfloor_le x) as Hlo. pose proof (Qlt_floor x) as Hhi.
  rewrite inject_Z_plus in Hhi.
  destruct (Qcompare (x - inject_Z (Qfloor x)) (1 # 2)) eqn:Hc.
  - apply Qeq_alt in Hc.
    destruct (Z.even (Qfloor x)); [| rewrite inject_Z_plus; change (inject_Z 1) with 1]; lra.
  - lra.
  - apply Qgt_alt in Hc. rewrite inject_Z_plus. change (inject_Z 1) with 1. lra.
Qed.

(** ** The parameters of the grid *)

Lemma grid_parameters (simulations : list Simulation) :
  well_shaped simulations ->
  exists delta lo hi,
    min_delta_v simulations = Ok delta /\
    v_min simulations = Ok lo /\
    v_max simulations = Ok hi /\
    least_of (List.map np.diff (v_middles simulations)) delta /\
    least_of (v_middles simulations) lo /\
    greatest_of (v_middles simulations) hi /\
    0 < delta /\ delta <= hi - lo.
Proof.
  intros [Hne Hshape].
  assert (Hvs : v_middles simulations <> []).
  { unfold v_middles. destruct simulations; [congruence | discriminate]. }
  assert (Hv : forall v, v ∈ v_middles simulations ->
                         increasing v /\ (2 <= length v)%nat).
  { intros v Hin. apply list_elem_of_fmap in Hin as (s & -> & Hs). now apply Hshape. }
  destruct (min_of_mins np.diff (v_middles simulations) Hvs) as (delta & Hd & Hdl).
  { intros v Hin. apply diff_nonempty, Hv, Hin. }
  destruct (min_of_mins (fun v => v) (v_middles simulations) Hvs) as (lo & Hlo & Hlol).
  { intros v Hin Hnil. destruct (Hv v Hin) as [_ Hlen]. rewrite Hnil in Hlen. cbn in Hlen. lia. }
  rewrite map_id in Hlol.
  destruct (max_of_maxs (v_middles simulations) Hvs) as (hi & Hhi & Hhil).
  { intros v Hin Hnil. destruct (Hv v Hin) as [_ Hlen]. rewrite Hnil in Hlen. cbn in Hlen. lia. }
  exists delta, lo, hi. repeat split; try assumption; try apply Hdl; try apply Hlol;
    try apply Hhil.
  - destruct Hdl as [(dv & Hdv & Hin) _].
    apply list_elem_of_fmap in Hdv as (v & -> & Hvin).
    destruct (diff_increasing v (proj1 (Hv v Hvin)) delta Hin) as (a & b & _ & _ & Hab & ->).
    lra.
  - destruct Hdl as [(dv & Hdv & Hin) _].
    apply list_elem_of_fmap in Hdv as (v & -> & Hvin).
    destruct (diff_increasing v (proj1 (Hv v Hvin)) delta Hin) as (a & b & Ha & Hb & Hab & ->).
    destruct Hlol as [_ Hlole]. destruct Hhil as [_ Hhile].
    pose proof (Hlole v a Hvin Ha). pose proof (Hhile v b Hvin Hb). lra.
Qed.

Lemma inject_Z_succ (z : Z) : inject_Z (z + 1) == inject_Z z + 1.
Proof. rewrite inject_Z_plus. reflexivity. Qed.

Lemma N_shells_ok (lo hi delta : Q) :
  0 < delta -> delta <= hi - lo ->
  exists n, N_shells lo hi delta = Ok n /\
            n = (py_round ((hi - lo) / delta) + 2)%Z /\
            (3 <= n)%Z /\
            (hi - lo) / delta < inject_Z (n - 1).
Proof.
  intros Hpos Hle.
  exists (py_round ((hi - lo) / delta) + 2)%Z.
  assert (Hnz : Qeq_bool delta 0 = false).
  { destruct (Qeq_bool delta 0) eqn:E; [| reflexivity].
    apply Qeq_bool_iff in E. lra. }
  assert (Hx : 1 <= (hi - lo) / delta).
  { apply Qle_shift_div_l; [exact Hpos | lra]. }
  pose proof (py_round_lower ((hi - lo) / delta)) as Hr.
  set (r := py_round ((hi - lo) / delta)) in *.
  assert (Hr1 : (1 <= r)%Z).
  { assert (H : 1 # 2 <= inject_Z r) by lra.
    unfold Qle, inject_Z in H. cbn in H. lia. }
  split; [| split; [reflexivity | split; [lia |]]].
  - unfold N_shells, round_div. rewrite Hnz. reflexivity.
  - replace (r + 2 - 1)%Z with (r + 1)%Z by lia.
    rewrite inject_Z_succ. lra.
Qed.

(** ** Evenly spaced samples *)

Lemma linspace_ok (lo hi : Q) (n : Z) :
  (2 <= n)%Z ->
  exists g, np.linspace lo hi n = Ok g /\
    length g = Z.to_nat n /\
    (forall i : nat, (i < Z.to_nat n - 1)%nat ->
       g !! i = Some (inject_Z (Z.of_nat i) * ((hi - lo) / inject_Z (n - 1)) + lo)) /\
    g !! (Z.to_nat n - 1)%nat = Some hi.
Proof.
  intros Hn. unfold np.linspace.
  destruct (n <? 0)%Z eqn:E0; [lia |].
  destruct (1 <? n)%Z eqn:E1; [| lia].
  eexists. split; [reflexivity |].
  set (f := fun i : nat => inject_Z (Z.of_nat i) * ((hi - lo) / inject_Z (n - 1)) + lo).
  assert (Hlen : length (List.map f (seq 0 (Z.to_nat n))) = Z.to_nat n).
  { rewrite length_map, length_seq. reflexivity. }
  replace (Nat.pred (Z.to_nat n)) with (Z.to_nat n - 1)%nat by lia.
  split; [| split].
  - rewrite length_insert. exact Hlen.
  - intros i Hi. rewrite list_lookup_insert_ne by lia.
    change (List.map f (seq 0 (Z.to_nat n))) with (f <$> seq 0 (Z.to_nat n)).
    rewrite list_lookup_fmap, lookup_seq_lt by lia. reflexivity.
  - apply list_lookup_insert_eq. rewrite Hlen. lia.
Qed.

Lemma increasing_lookup (l : list Q) :
  (forall (i : nat) a b, l !! i = Some a -> l !! S i = Some b -> a < b) ->
  increasing l.
Proof.
  induction l as [|x [|y l] IH]; intros H; cbn; try exact I.
  split.
  - apply (H 0%nat); reflexivity.
  - apply IH. intros i a b Ha Hb. apply (H (S i)); assumption.
Qed.

Lemma last_lookup_pred (l : list Q) (x : Q) :
  l !! (length l - 1)%nat = Some x -> l <> [] -> last l = Some x.
Proof.
  intros H Hne. rewrite last_lookup.
  replace (Nat.pred (length l)) with (length l - 1)%nat by lia. exact H.
Qed.

(** ** The grid as a whole *)

(** Everything the grid claims rest on: on well-shaped input the function
    returns a grid of [n] samples, [step] apart, that ends in [hi]. *)
Lemma grid_shape (simulations : list Simulation) :
  well_shaped simulations ->
  exists delta lo hi n g,
    min_delta_v simulations = Ok delta /\
    v_min simulations = Ok lo /\
    v_max simulations = Ok hi /\
    N_shells lo hi delta = Ok n /\
    get_velocity_grid_from_simulations simulations = Ok g /\
    least_of (List.map np.diff (v_middles simulations)) delta /\
    least_of (v_middles simulations) lo /\
    greatest_of (v_middles simulations) hi /\
    n = (py_round ((hi - lo) / delta) + 2)%Z /\
    (3 <= n)%Z /\
    0 < (hi - lo) / inject_Z (n - 1) <= delta /\
    length g = Z.to_nat n /\
    (forall i : nat, (i < Z.to_nat n - 1)%nat ->
       g !! i = Some (inject_Z (Z.of_nat i) * ((hi - lo) / inject_Z (n - 1)) + lo)) /\
    g !! (Z.to_nat n - 1)%nat = Some hi.
Proof.
  intros Hws.
  destruct (grid_parameters simulations Hws)
    as (delta & lo & hi & Hd & Hlo & Hhi & Hdl & Hlol & Hhil & Hpos & Hle).
  destruct (N_shells_ok lo hi delta Hpos Hle) as (n & Hn & Hneq & Hn3 & Hx).
  destruct (linspace_ok lo hi n) as (g & Hg & Hlen & Hlook & Hlast); [lia |].
  exists delta, lo, hi, n, g.
  assert (HN : 0 < inject_Z (n - 1)).
  { change 0 with (inject_Z 0). rewrite <- Zlt_Qlt. lia. }
  repeat match goal with |- _ /\ _ => split end; try assumption.
  - unfold get_velocity_grid_from_simulations.
    rewrite Hd. cbn. rewrite Hlo. cbn. rewrite Hhi. cbn. rewrite Hn. cbn. exact Hg.
  - apply Qlt_shift_div_l; [exact HN | lra].
  - apply Qle_shift_div_r; [exact HN |].
    assert (Heq : hi - lo == (hi - lo) / delta * delta) by (field; lra).
    rewrite Heq at 1. rewrite (Qmult_comm delta).
    apply Qlt_le_weak. apply Qmult_lt_compat_r; assumption.
Qed.

Lemma linspace_steps (lo hi : Q) (n : Z) (g : list Q) :
  (2 <= n)%Z ->
  length g = Z.to_nat n ->
  (forall i : nat, (i < Z.to_nat n - 1)%nat ->
     g !! i = Some (inject_Z (Z.of_nat i) * ((hi - lo) / inject_Z (n - 1)) + lo)) ->
  g !! (Z.to_nat n - 1)%nat = Some hi ->
  forall (i : nat) a b, g !! i = Some a -> g !! S i = Some b ->
    b - a == (hi - lo) / inject_Z (n - 1).
Proof.
  intros Hn Hlen Hlook Hlast i a b Ha Hb.
  assert (Hi : (S i < Z.to_nat n)%nat).
  { rewrite <- Hlen. eapply lookup_lt_Some, Hb. }
  assert (HN : ~ inject_Z (n - 1) == 0).
  { change 0 with (inject_Z 0). rewrite inject_Z_injective. lia. }
  rewrite Hlook in Ha by lia. injection Ha as <-.
  destruct (decide (S i = Z.to_nat n - 1)%nat) as [Hend | Hmid].
  - rewrite Hend, Hlast in Hb. injection Hb as <-.
    replace (Z.of_nat i) with ((n - 1) + (-1))%Z by lia.
    rewrite inject_Z_plus. change (inject_Z (-1)) with (- (1)).
    field. exact HN.
  - rewrite Hlook in Hb by lia. injection Hb as <-.
    rewrite Nat2Z.inj_succ. unfold Z.succ. rewrite inject_Z_succ.
    field. exact HN.
Qed.



Lemma scenario_well_shaped : well_shaped scenario.
Proof.
  split; [discriminate |].
  intros s Hs. unfold scenario in Hs.
  repeat (apply elem_of_cons in Hs as [-> | Hs]);
    [| | inversion Hs]; cbn; repeat split; lia.
Qed.



(** ** The scenario of two simulations *)

Lemma scenario_grid :
  get_velocity_grid_from_simulations scenario
  = Ok [5000 # 5; 8500 # 5; 12000 # 5; 15500 # 5; 19000 # 5; 4500].
Proof. vm_compute. reflexivity. Qed.

(** C3, as stated, fails: the grid of [[1000, 2000, 3000]] and
    [[1500, 2500, 3500, 4500]] has samples more than 500 km/s apart and
    fewer than 9 of them. *)
Lemma scenario_grid_not_as_claimed :
  ~ (exists g,
       get_velocity_grid_from_simulations scenario = Ok g /\
       spans g 1000 4500 /\ spacing_at_most g 500 /\ (9 <= length g)%nat).
Proof.
  intros (g & Hg & _ & _ & Hlen).
  rewrite scenario_grid in Hg. injection Hg as <-. cbn in Hlen. lia.
Qed.

(** C3, amended: the smallest successive difference within either array is
    1000 km/s, so the grid has [round(3500 / 1000) + 2 = 6] samples,
    700 km/s apart, from 1000 to 4500. *)
Theorem scenario_grid_six_samples :
  exists g,
    get_velocity_grid_from_simulations scenario = Ok g /\
    min_delta_v scenario = Ok 1000 /\
    Forall2 Qeq g [1000; 1700; 2400; 3100; 3800; 4500] /\
    spans g 1000 4500 /\
    length g = 6%nat /\
    spacing_at_most g 700 /\
    ~ spacing_at_most g 500.
Proof.
  eexists. split; [exact scenario_grid |].
  repeat match goal with |- _ /\ _ => split end.
  - vm_compute. reflexivity.
  - repeat constructor.
  - exists (5000 # 5), 4500. repeat split.
  - reflexivity.
  - intros i a b Ha Hb.
    do 5 (destruct i as [|i]; [cbn in Ha, Hb; injection Ha as <-; injection Hb as <-;
                               vm_compute; discriminate |]).
    cbn in Hb. destruct i; discriminate Hb.
  - intros H. specialize (H 0%nat (5000 # 5) (8500 # 5) eq_refl eq_refl).
    vm_compute in H. apply H. reflexivity.
Qed.

(** ** Interpolation *)

Lemma increasing_tail (x : Q) (v : list Q) : increasing (x :: v) -> increasing v.
Proof. destruct v; cbn; tauto. Qed.

Lemma increasing_head_least (v : list Q) (lo : Q) :
  increasing v -> head v = Some lo -> forall a, a ∈ v -> lo <= a.
Proof.
  destruct v as [|x v]; [discriminate |]. cbn. intros Hinc [= ->] a Ha.
  apply elem_of_cons in Ha as [-> | Ha]; [apply Qle_refl |].
  apply Qlt_le_weak. eapply increasing_head_lt; eassumption.
Qed.

Lemma increasing_last_greatest (v : list Q) (hi : Q) :
  increasing v -> last v = Some hi -> forall a, a ∈ v -> a <= hi.
Proof.
  induction v as [|x [|y v] IH]; intros Hinc Hl a Ha.
  - inversion Ha.
  - cbn in Hl. injection Hl as <-. apply list_elem_of_singleton in Ha. subst. apply Qle_refl.
  - apply elem_of_cons in Ha as [-> | Ha].
    + apply Qlt_le_weak. eapply Qlt_le_trans; [apply Hinc |].
      apply IH; [apply Hinc | exact Hl | left].
    + apply IH; [apply Hinc | exact Hl | exact Ha].
Qed.

Lemma hd_head (v : list Q) (x : Q) : head v = Some x -> List.hd 0 v = x.
Proof. destruct v; cbn; congruence. Qed.

Lemma last_last (v : list Q) (x : Q) : last v = Some x -> List.last v 0 = x.
Proof.
  induction v as [|a [|b v] IH]; cbn; try congruence.
  intros H. apply IH. exact H.
Qed.

Lemma head_last_exist (v : list Q) :
  v <> [] -> exists lo hi, head v = Some lo /\ last v = Some hi /\ lo ∈ v /\ hi ∈ v.
Proof.
  intros Hne. destruct v as [|x v]; [congruence |].
  destruct (last (x :: v)) as [hi|] eqn:Hl.
  - exists x, hi. repeat split; [left |]. apply last_Some_elem_of. exact Hl.
  - apply last_None in Hl. discriminate.
Qed.

(** Outside the range of [xp] the sample is [left] or [right]. *)
Lemma interp1_outside (x : Q) (xp fp : list Q) (fill : Q) :
  xp <> [] -> outside xp x -> np.interp1 x xp fp fill fill = fill.
Proof.
  intros Hne Hout.
  destruct (head_last_exist xp Hne) as (lo & hi & Hh & Hl & Hlo & Hhi).
  unfold np.interp1. rewrite (hd_head _ _ Hh), (last_last _ _ Hl).
  destruct (Qlt_le_dec hi x) as [|Hle]; [reflexivity |].
  destruct (Qlt_le_dec x lo) as [|Hle']; [reflexivity |].
  destruct Hout as [Hout | Hout].
  - specialize (Hout lo Hlo). lra.
  - specialize (Hout hi Hhi). lra.
Qed.

Lemma linear_between_cons (x0 f0 : Q) (xp fp : list Q) (x y : Q) :
  linear_between xp fp x y -> linear_between (x0 :: xp) (f0 :: fp) x y.
Proof.
  intros (j & a & b & fa & fb & Ha & Hb & Hfa & Hfb & Hx & Hy).
  exists (S j), a, b, fa, fb. repeat split; try assumption; apply Hx.
Qed.

Lemma interp_segment_linear (x : Q) (xp : list Q) :
  forall fp lo hi,
    length xp = length fp -> increasing xp -> (2 <= length xp)%nat ->
    head xp = Some lo -> last xp = Some hi -> lo <= x <= hi ->
    linear_between xp fp x (np.interp_segment x xp fp).
Proof.
  induction xp as [|x0 [|x1 xp] IH]; intros fp lo hi Hlen Hinc H2 Hh Hl Hx.
  - cbn in H2. lia.
  - cbn in H2. lia.
  - destruct fp as [|f0 [|f1 fp]]; try discriminate Hlen.
    cbn in Hh. injection Hh as <-. destruct Hinc as [H01 Hinc].
    cbn [np.interp_segment].
    destruct (Qlt_le_dec x x1) as [Hlt | Hge].
    + exists 0%nat, x0, x1, f0, f1.
      repeat split; try reflexivity; try lra.
      destruct (Qeq_bool x0 x) eqn:E.
      * apply Qeq_bool_iff in E. rewrite <- E. field. lra.
      * ring.
    + destruct xp as [|x2 xp].
      * cbn in Hl. injection Hl as <-.
        exists 0%nat, x0, x1, f0, f1.
        repeat split; try reflexivity; try lra.
        cbn. assert (Hxe : x == x1) by lra. rewrite Hxe. field. lra.
      * apply linear_between_cons.
        apply (IH (f1 :: fp) x1 hi).
        -- cbn in Hlen |- *. lia.
        -- exact Hinc.
        -- cbn. lia.
        -- reflexivity.
        -- exact Hl.
        -- lra.
Qed.

(** Inside the range of [xp] the sample lies on the line through the two
    neighbouring samples. *)
Lemma interp1_inside (x : Q) (xp fp : list Q) (left right : Q) :
  length xp = length fp -> increasing xp -> (2 <= length xp)%nat ->
  inside xp x -> linear_between xp fp x (np.interp1 x xp fp left right).
Proof.
  intros Hlen Hinc H2 (a & b & Ha & Hb & Hx).
  assert (Hne : xp <> []) by (intros ->; cbn in H2; lia).
  destruct (head_last_exist xp Hne) as (lo & hi & Hh & Hl & _ & _).
  pose proof (increasing_head_least xp lo Hinc Hh a Ha).
  pose proof (increasing_last_greatest xp hi Hinc Hl b Hb).
  unfold np.interp1. rewrite (hd_head _ _ Hh), (last_last _ _ Hl).
  destruct (Qlt_le_dec hi x); [lra |].
  destruct (Qlt_le_dec x lo); [lra |].
  apply (interp_segment_linear x xp fp lo hi); try assumption. lra.
Qed.

(** ** Building the table of the velocity exporters *)

Lemma for_each_fmap {A B : Type} (f : A -> result B) (h : A -> B) (l : list A) :
  (forall x, x ∈ l -> f x = Ok (h x)) -> for_each f l = Ok (h <$> l).
Proof.
  induction l as [|x l IH]; intros H; [reflexivity |].
  cbn. rewrite (H x) by left. cbn. rewrite IH; [reflexivity |].
  intros y Hy. apply H. now right.
Qed.

Lemma interp_ok (x xp fp : list Q) (left right : Q) :
  xp <> [] -> length xp = length fp ->
  np.interp x xp (Some fp) left right
  = Ok ((fun xi => np.interp1 xi xp fp left right) <$> x).
Proof.
  intros Hne Hlen. unfold np.interp.
  destruct (decide (xp = [])); [contradiction |].
  destruct (decide (length xp = length fp)); [reflexivity | contradiction].
Qed.

Lemma vstack_ok (arrays : list (list Q)) (n : nat) :
  arrays <> [] -> (forall a, a ∈ arrays -> length a = n) ->
  np.vstack arrays = Ok arrays.
Proof.
  intros Hne Hlen. destruct arrays as [|a rest]; [congruence |].
  unfold np.vstack.
  rewrite (proj2 (forallb_forall _ rest)); [reflexivity |].
  intros b Hb. apply Nat.eqb_eq.
  rewrite (Hlen a) by left. apply Hlen. right. apply list_elem_of_In, Hb.
Qed.

Lemma max_list_same (ns : list nat) (n : nat) :
  ns <> [] -> (forall m, m ∈ ns -> m = n) -> max_list ns = n.
Proof.
  induction ns as [|m [|m' ns] IH]; intros Hne H; [congruence | |].
  - cbn. rewrite (H m) by left. lia.
  - change (max_list (m :: m' :: ns)) with (m `max` max_list (m' :: ns)).
    rewrite IH; [| discriminate | intros k Hk; apply H; now right].
    rewrite (H m) by left. lia.
Qed.

Lemma pad_full (a : list Q) : pd.pad (length a) a = Some <$> a.
Proof. unfold pd.pad. rewrite Nat.sub_diag. cbn. apply app_nil_r. Qed.

(** Arrays of one length make a frame without NaN. *)
Lemma DataFrame_T_same_length (arrays : list (list Q)) (n : nat) :
  arrays <> [] -> (forall a, a ∈ arrays -> length a = n) ->
  pd.DataFrame_T arrays
  = {| index_len := n;
       columns := imap (fun i a => (LInt i, (Some <$> a : list cell))) arrays |}.
Proof.
  intros Hne Hlen. unfold pd.DataFrame_T.
  assert (Hmax : max_list (length <$> arrays) = n).
  { apply max_list_same.
    - destruct arrays; [congruence | discriminate].
    - intros m Hm. apply list_elem_of_fmap in Hm as (a & -> & Ha). now apply Hlen. }
  rewrite Hmax. f_equal.
  apply imap_ext. intros i a Hi. cbn.
  rewrite <- (Hlen a) by (eapply list_elem_of_lookup_2, Hi).
  now rewrite pad_full.
Qed.

Lemma interpolated_values_ok (c : exporter) (simulations : list Simulation) (g : list Q) :
  get_velocity_grid_from_simulations simulations = Ok g ->
  well_shaped simulations -> has_values c simulations ->
  VelocityInterpolatedOutputFile.interpolated_values c simulations
  = Ok (samples c g <$> simulations).
Proof.
  intros Hg [_ Hshape] Hval.
  unfold VelocityInterpolatedOutputFile.interpolated_values,
    VelocityInterpolatedOutputFile.get_data_first_column.
  rewrite Hg. cbn.
  apply for_each_fmap. intros s Hs.
  destruct (Hval s Hs) as (fp & Hfp & Hlen).
  destruct (Hshape s Hs) as [_ H2].
  unfold samples. rewrite Hfp. cbn.
  apply interp_ok; [| now symmetry].
  intros Hnil. rewrite Hnil in H2. cbn in H2. lia.
Qed.

Lemma velocity_table_ok (c : exporter) (simulations : list Simulation) (g : list Q)
    (w : world) :
  get_velocity_grid_from_simulations simulations = Ok g ->
  well_shaped simulations -> has_values c simulations ->
  let l := fresh (dom (frames w)) in
  let df := {| index_len := length g;
               columns := imap (fun i a => (LInt i, (Some <$> a : list cell)))
                            (samples c g <$> simulations) |} in
  VelocityInterpolatedOutputFile.get_data_table c simulations w
  = (Ok (TFrame l), set_frames (<[l := df]> (frames w)) w).
Proof.
  intros Hg Hws Hval l df.
  unfold VelocityInterpolatedOutputFile.get_data_table.
  assert (Hne : samples c g <$> simulations <> []).
  { destruct Hws as [Hne _]. destruct simulations; [congruence | discriminate]. }
  assert (Hlen : forall a, a ∈ samples c g <$> simulations -> length a = length g).
  { intros a Ha. apply list_elem_of_fmap in Ha as (s & -> & _).
    unfold samples. apply length_fmap. }
  unfold mbind, M_bind, lift.
  rewrite (interpolated_values_ok c simulations g Hg Hws Hval).
  rewrite (vstack_ok _ (length g) Hne Hlen).
  unfold new_frame, mret, M_ret.
  rewrite (DataFrame_T_same_length _ (length g) Hne Hlen). reflexivity.
Qed.


Lemma two_simulations_well_shaped : well_shaped two_simulations.
Proof.
  split; [discriminate |].
  intros s Hs. unfold two_simulations in Hs.
  repeat (apply elem_of_cons in Hs as [-> | Hs]);
    [| | inversion Hs]; cbn; repeat split; lia.
Qed.

Lemma two_simulations_has_values : has_values TGas two_simulations.
Proof.
  intros s Hs. unfold two_simulations in Hs.
  repeat (apply elem_of_cons in Hs as [-> | Hs]);
    [| | inversion Hs]; eexists; split; reflexivity.
Qed.


(** ** Inserting a column *)

Lemma insert_ok (column : label) (value : list Q) (df : DataFrame) :
  column ∉ labels df -> length value = index_len df ->
  pd.insert 0 column value df
  = Ok {| index_len := index_len df;
          columns := (column, (Some <$> value : list cell)) :: columns df |}.
Proof.
  intros Hfresh Hlen. unfold pd.insert.
  destruct (decide (column ∈ labels df)); [contradiction |].
  assert (Hg : (index_len df =? 0)%nat && (0 <? length value)%nat = false).
  { rewrite Hlen. destruct (index_len df); reflexivity. }
  rewrite Hg, Hlen, Nat.eqb_refl. reflexivity.
Qed.

(** Whatever the lengths, a column inserted at 0 leads the old labels. *)
Lemma insert_labels (column : label) (value : list Q) (df df' : DataFrame) :
  pd.insert 0 column value df = Ok df' -> labels df' = column :: labels df.
Proof.
  unfold pd.insert.
  destruct (decide (column ∈ labels df)); [discriminate |].
  destruct (negb _); [discriminate |].
  intros [= <-]. unfold labels. cbn [columns take drop app].
  rewrite fmap_cons. cbn [fst]. f_equal.
  destruct (_ && _); [| reflexivity].
  rewrite drop_0, <- list_fmap_compose. reflexivity.
Qed.

Lemma frame_insert_ok (l : nat) (column : label) (value : list Q) (df : DataFrame)
    (w : world) :
  frames w !! l = Some df -> column ∉ labels df -> length value = index_len df ->
  frame_insert l 0 column value w
  = (Ok tt,
     set_frames (<[l := {| index_len := index_len df;
                           columns := (column, (Some <$> value : list cell))
                                        :: columns df |}]> (frames w)) w).
Proof.
  intros Hl Hfresh Hlen. unfold frame_insert.
  rewrite Hl, (insert_ok column value df Hfresh Hlen). reflexivity.
Qed.

(** C10: constructing the base exporter without a first column leaves the
    table (and everything else) as it was; with a first column, the column
    is inserted in place at the front of the frame the caller passed, under
    the label [wav], and the columns the frame had follow it unchanged, in
    their order. *)
Theorem init_inserts_first_column_in_place :
  (forall c times tbl name w,
     CodeComparisonOutputFile.__init__ c times tbl name None w
     = (Ok {| cls := c; times := times; data_table := tbl; model_name := name;
              extra := NoAttrs |}, w)) /\
  (forall c times (l : nat) name column w df,
     frames w !! l = Some df ->
     LStr "wav" ∉ labels df ->
     length column = index_len df ->
     CodeComparisonOutputFile.__init__ c times (TFrame l) name (Some column) w
     = (Ok {| cls := c; times := times; data_table := TFrame l; model_name := name;
              extra := NoAttrs |},
        set_frames
          (<[l := {| index_len := index_len df;
                     columns := (LStr "wav", (Some <$> column : list cell))
                                  :: columns df |}]> (frames w)) w)) /\
  (forall c times (l : nat) name column w o w',
     CodeComparisonOutputFile.__init__ c times (TFrame l) name (Some column) w
     = (Ok o, w') ->
     data_table o = TFrame l /\
     files w' = files w /\
     (forall l', l' <> l -> frames w' !! l' = frames w !! l') /\
     exists df df',
       frames w !! l = Some df /\ frames w' !! l = Some df' /\
       labels df' = LStr "wav" :: labels df).
Proof.
  split; [| split].
  - reflexivity.
  - intros c times l name column w df Hl Hfresh Hlen.
    unfold CodeComparisonOutputFile.__init__, mbind, M_bind.
    rewrite (frame_insert_ok l _ column df w Hl Hfresh Hlen). reflexivity.
  - intros c times l name column w o w'.
    unfold CodeComparisonOutputFile.__init__, mbind, M_bind, frame_insert.
    destruct (frames w !! l) as [df|] eqn:Hl; [| discriminate].
    destruct (pd.insert 0 (LStr "wav") column df) as [df'|] eqn:Hins; [| discriminate].
    intros [= <- <-]. cbn. repeat split.
    + intros l' Hne. now rewrite lookup_insert_ne.
    + exists df, df'. rewrite lookup_insert_eq.
      repeat split. eapply insert_labels, Hins.
Qed.

Lemma init_inserts_first_column_in_place_witness :
  (frames world_with_frame !! 0%nat = Some one_frame /\
   (LStr "wav" ∉ labels one_frame) /\
   length [4000; 5000] = index_len one_frame) /\
  CodeComparisonOutputFile.__init__ Spectral [2] (TFrame 0) "model" (Some [4000; 5000])
    world_with_frame
  = (Ok {| cls := Spectral; times := [2]; data_table := TFrame 0;
           model_name := "model"; extra := NoAttrs |},
     set_frames
       (<[0%nat := {| index_len := index_len one_frame;
                      columns := (LStr "wav", (Some <$> [4000; 5000] : list cell))
                                   :: columns one_frame |}]>
          (frames world_with_frame)) world_with_frame).
Proof.
  assert (H1 : frames world_with_frame !! 0%nat = Some one_frame) by reflexivity.
  assert (H2 : LStr "wav" ∉ labels one_frame).
  { apply not_elem_of_cons. split; [discriminate | apply not_elem_of_nil]. }
  assert (H3 : length [4000; 5000] = index_len one_frame) by reflexivity.
  split; [repeat split; assumption |].
  exact (proj1 (proj2 init_inserts_first_column_in_place)
           Spectral [2] 0%nat "model" [4000; 5000] world_with_frame one_frame H1 H2 H3).
Defined.

(** ** The factory *)

Lemma labels_numbered {A B : Type} (g : A -> B) (l : list A) :
  fst <$> imap (fun i a => (LInt i, g a)) l = LInt <$> seq 0 (length l).
Proof.
  apply list_eq. intros i.
  rewrite list_lookup_fmap, list_lookup_imap, list_lookup_fmap.
  destruct (l !! i) eqn:Hi.
  - rewrite lookup_seq_lt by (eapply lookup_lt_Some, Hi). reflexivity.
  - rewrite lookup_seq_ge by (apply lookup_ge_None, Hi). reflexivity.
Qed.

Lemma wav_not_numbered (n : nat) : LStr "wav" ∉ (LInt <$> seq 0 n).
Proof. intros H. apply list_elem_of_fmap in H as (i & Hi & _). discriminate. Qed.

Lemma labels_cons (n : nat) (c : label) (v : list cell) (cols : list (label * list cell)) :
  labels {| index_len := n; columns := (c, v) :: cols |} = c :: (fst <$> cols).
Proof. reflexivity. Qed.

Lemma labels_DataFrame_T (arrays : list (list Q)) :
  labels (pd.DataFrame_T arrays) = LInt <$> seq 0 (length arrays).
Proof. unfold labels, pd.DataFrame_T. cbn. apply labels_numbered. Qed.

(** Once the table and the first column are there, the base constructor
    finishes the work of the factory. *)
Lemma from_simulations_ok (c : exporter) (simulations : list Simulation)
    (name : string) (w : world) (l : nat) (df : DataFrame) (column : list Q) :
  c <> IonFrac -> c <> PhysicalProperty ->
  get_data_table c simulations w
  = (Ok (TFrame l), set_frames (<[l := df]> (frames w)) w) ->
  get_data_first_column c simulations = Ok column ->
  LStr "wav" ∉ labels df -> length column = index_len df ->
  from_simulations c simulations name w
  = (Ok {| cls := c; times := time_explosion <$> simulations;
           data_table := TFrame l; model_name := name; extra := NoAttrs |},
     set_frames
       (<[l := {| index_len := index_len df;
                  columns := (LStr "wav", (Some <$> column : list cell))
                               :: columns df |}]> (frames w)) w).
Proof.
  intros Hion Hphys Htable Hcol Hfresh Hlen.
  unfold from_simulations, mbind, M_bind. rewrite Htable.
  unfold lift. rewrite Hcol.
  assert (Hcall : call_cls c = CodeComparisonOutputFile.__init__ c)
    by (destruct c; try reflexivity; congruence).
  rewrite Hcall.
  unfold CodeComparisonOutputFile.__init__, mbind, M_bind.
  rewrite (frame_insert_ok l _ column df); try assumption.
  - unfold set_frames. cbn. rewrite insert_insert_eq. reflexivity.
  - cbn. apply lookup_insert_eq.
Qed.

Lemma spectral_table (simulations : list Simulation) (w : world) :
  SpectralOutputFile.get_data_table simulations w
  = (Ok (TFrame (fresh (dom (frames w)))),
     set_frames (<[fresh (dom (frames w))
                   := pd.DataFrame_T (luminosity_density_lambda <$> simulations)]>
                   (frames w)) w).
Proof. reflexivity. Qed.

(** The block exporters have no values to interpolate and a constructor the
    factory cannot call: their factory raises, whatever the input. *)
Lemma from_simulations_block_raises (c : exporter) (simulations : list Simulation)
    (name : string) (w : world) :
  c = IonFrac \/ c = PhysicalProperty ->
  exists e, from_simulations c simulations name w = (Raise e, w).
Proof.
  intros Hc.
  assert (Hnone : forall s,
            VelocityInterpolatedOutputFile.get_interpolation_values c s = None)
    by (destruct Hc as [-> | ->]; reflexivity).
  assert (Htable : get_data_table c simulations
                   = VelocityInterpolatedOutputFile.get_data_table c simulations)
    by (destruct Hc as [-> | ->]; reflexivity).
  unfold from_simulations, mbind, M_bind. rewrite Htable.
  unfold VelocityInterpolatedOutputFile.get_data_table, mbind, M_bind, lift,
    VelocityInterpolatedOutputFile.interpolated_values,
    VelocityInterpolatedOutputFile.get_data_first_column.
  destruct (get_velocity_grid_from_simulations simulations) as [g | e]; cbn.
  - destruct simulations as [|s rest]; cbn.
    + eexists. reflexivity.
    + rewrite Hnone. cbn. eexists. reflexivity.
  - eexists. reflexivity.
Qed.




(** ** Splitting a line into its columns *)

Lemma append_cons (x : ascii) (a b : string) : String x a ++ b = String x (a ++ b).
Proof. reflexivity. Qed.

Lemma append_nil (b : string) : EmptyString ++ b = b.
Proof. reflexivity. Qed.

Lemma append_assoc (a b c : string) : (a ++ b) ++ c = a ++ (b ++ c).
Proof.
  induction a as [|x a IH]; [reflexivity |].
  rewrite !append_cons, IH. reflexivity.
Qed.

Lemma append_empty_r (a : string) : a ++ EmptyString = a.
Proof.
  induction a as [|x a IH]; [reflexivity |]. rewrite append_cons, IH. reflexivity.
Qed.

Lemma length_append (a b : string) :
  String.length (a ++ b) = (String.length a + String.length b)%nat.
Proof.
  induction a as [|x a IH]; [reflexivity |]. rewrite append_cons. cbn. now rewrite IH.
Qed.

Lemma has_char_app (c : ascii) (a b : string) :
  has_char c (a ++ b) = has_char c a || has_char c b.
Proof.
  induction a as [|x a IH]; [reflexivity |].
  rewrite append_cons. cbn [has_char]. rewrite IH. apply orb_assoc.
Qed.

Lemma nonempty_app_r (a b : string) : nonempty b = true -> nonempty (a ++ b) = true.
Proof. destruct a; [rewrite append_nil; trivial | reflexivity]. Qed.

Lemma split_on_not_nil (sep : ascii) (s : string) : split_on sep s <> [].
Proof.
  destruct s as [|a s]; cbn; [discriminate |].
  destruct (Ascii.eqb a sep); [discriminate |].
  destruct (split_on sep s); discriminate.
Qed.

Lemma split_on_app (sep : ascii) (t s : string) :
  has_char sep t = false ->
  split_on sep (t ++ String sep s) = t :: split_on sep s.
Proof.
  induction t as [|a t IH]; intros H.
  - rewrite append_nil. cbn. now rewrite Ascii.eqb_refl.
  - cbn in H. apply orb_false_iff in H as [Ha Ht].
    rewrite append_cons. cbn [split_on]. rewrite Ha, (IH Ht). reflexivity.
Qed.

Lemma split_on_no_sep (sep : ascii) (t : string) :
  has_char sep t = false -> split_on sep t = [t].
Proof.
  induction t as [|a t IH]; cbn; intros H; [reflexivity |].
  apply orb_false_iff in H as [Ha Ht]. rewrite Ha, (IH Ht). reflexivity.
Qed.

(** Joining tokens by a separator they do not hold, then splitting at it,
    gives the tokens back. *)
Lemma split_on_concat (sep : ascii) (toks : list string) :
  toks <> [] -> Forall (fun t => has_char sep t = false) toks ->
  split_on sep (String.concat (String sep EmptyString) toks) = toks.
Proof.
  induction toks as [|t [|t' toks] IH]; intros Hne HF; [congruence | |].
  - cbn. apply split_on_no_sep. now inversion HF.
  - change (String.concat (String sep EmptyString) (t :: t' :: toks))
      with (t ++ String sep (String.concat (String sep EmptyString) (t' :: toks))).
    inversion HF as [|? ? Ht HF']; subst.
    rewrite (split_on_app sep t _ Ht), IH; [reflexivity | discriminate | exact HF'].
Qed.

Lemma filter_nonempty_id (toks : list string) :
  Forall (fun t => nonempty t = true) toks -> List.filter nonempty toks = toks.
Proof.
  induction 1 as [|t toks Ht _ IH]; [reflexivity |].
  cbn. rewrite Ht, IH. reflexivity.
Qed.

Lemma words_concat (toks : list string) :
  Forall (fun t => has_char " " t = false) toks ->
  Forall (fun t => nonempty t = true) toks ->
  words (String.concat " " toks) = toks.
Proof.
  intros Hsp Hne. unfold words.
  destruct toks as [|t toks]; [reflexivity |].
  rewrite split_on_concat by (discriminate || assumption).
  now apply filter_nonempty_id.
Qed.

(** A header made of a first name and the joined names of more columns. *)
Lemma words_header (first : string) (names : list string) :
  has_char " " first = false -> nonempty first = true ->
  Forall (fun t => has_char " " t = false) names ->
  Forall (fun t => nonempty t = true) names ->
  words (String.concat " " [first; String.concat " " names]) = first :: names.
Proof.
  intros Hf Hfn Hsp Hne.
  change (String.concat " " [first; String.concat " " names])
    with (first ++ String " " (String.concat " " names)).
  unfold words. rewrite (split_on_app " " first _ Hf).
  cbn [List.filter]. rewrite Hfn. f_equal.
  apply (words_concat names Hsp Hne).
Qed.

Lemma string_of_uint_no_space (d : Decimal.uint) :
  has_char " " (NilEmpty.string_of_uint d) = false.
Proof. induction d; cbn; auto. Qed.

Lemma str_nat_no_space (n : nat) : has_char " " (str_nat n) = false.
Proof. apply string_of_uint_no_space. Qed.

Lemma str_nat_nonempty (n : nat) : nonempty (str_nat n) = true.
Proof.
  unfold str_nat. destruct (Nat.to_uint n) as [| | | | | | | | | |] eqn:E;
    try reflexivity.
  pose proof (DecimalNat.Unsigned.of_to n) as H. rewrite E in H. cbn in H.
  subst n. discriminate E.
Qed.

Lemma ion_column_names_length (species : string) (species_num : nat) :
  length (IonFracOutputFile.ion_column_names species species_num) = species_num.
Proof.
  unfold IonFracOutputFile.ion_column_names. now rewrite length_fmap, length_seq.
Qed.

Lemma ion_column_names_tokens (species : string) (species_num : nat) :
  has_char " " species = false ->
  Forall (fun t => has_char " " t = false)
    (IonFracOutputFile.ion_column_names species species_num) /\
  Forall (fun t => nonempty t = true)
    (IonFracOutputFile.ion_column_names species species_num).
Proof.
  intros Hsp. unfold IonFracOutputFile.ion_column_names.
  split; apply Forall_fmap, Forall_forall; intros i _; cbn.
  - rewrite has_char_app, Hsp, str_nat_no_space. reflexivity.
  - apply nonempty_app_r, str_nat_nonempty.
Qed.

(** ** The ionization-fraction exporter *)

Lemma frame_insert_files (l loc : nat) (column : label) (value : list Q) (w : world) :
  files (snd (frame_insert l loc column value w)) = files w.
Proof.
  unfold frame_insert. destruct (frames w !! l); [| reflexivity].
  destruct (pd.insert loc column value _); reflexivity.
Qed.

(** The base constructor writes no file, whether it returns or raises. *)
Lemma base_init_files (c : exporter) (times : list Q) (tbl : table) (name : string)
    (column : option (list Q)) (w : world) :
  files (snd (CodeComparisonOutputFile.__init__ c times tbl name column w)) = files w.
Proof.
  unfold CodeComparisonOutputFile.__init__, mbind, M_bind.
  destruct column as [col|]; [| reflexivity].
  destruct tbl as [|l|ls]; try reflexivity.
  pose proof (frame_insert_files l 0 (LStr "wav") col w) as H.
  destruct (frame_insert l 0 (LStr "wav") col w) as [[[]|e] w1]; exact H.
Qed.

Lemma base_init_object (c : exporter) (times : list Q) (tbl : table) (name : string)
    (column : option (list Q)) (w w' : world) (o : OutputFile) :
  CodeComparisonOutputFile.__init__ c times tbl name column w = (Ok o, w') ->
  o = {| cls := c; times := times; data_table := tbl; model_name := name;
         extra := NoAttrs |}.
Proof.
  unfold CodeComparisonOutputFile.__init__, mbind, M_bind.
  destruct column as [col|].
  - destruct tbl as [|l|ls]; try (cbn; discriminate).
    destruct (frame_insert l 0 (LStr "wav") col w) as [[[]|e] w1]; [| discriminate].
    intros [= <- _]. reflexivity.
  - intros [= <- _]. reflexivity.
Qed.

(** An exception skips what is sequenced after it. *)
Lemma bind_raise {A B : Type} (m : M A) (k : A -> M B) (w w' : world) (e : exn) :
  m w = (Raise e, w') -> (m ≫= k) w = (Raise e, w').
Proof. intros H. unfold mbind, M_bind. now rewrite H. Qed.

Section IonFrac.

Variable name_zz : gmap string nat.

Lemma ionfrac_init_unfold (times : list Q) (tbl : table) (name : string)
    (column : option (list Q)) (vel_mid : list Q) (species : string) (w : world) :
  IonFracOutputFile.__init__ name_zz times tbl name column vel_mid species w
  = match CodeComparisonOutputFile.__init__ IonFrac times tbl name column w with
    | (Ok o, w') =>
        match name_zz !! species with
        | None => (Raise (KeyError species), w')
        | Some species_num =>
            (Ok {| cls := cls o; times := times; data_table := tbl; model_name := name;
                   extra := IonFracAttrs species vel_mid species_num
                              (String.concat " "
                                 [class_column_description IonFrac;
                                  String.concat " "
                                    (IonFracOutputFile.ion_column_names species
                                       species_num)]) |}, w')
        end
    | (Raise e, w') => (Raise e, w')
    end.
Proof.
  unfold IonFracOutputFile.__init__, mbind, M_bind.
  destruct (CodeComparisonOutputFile.__init__ IonFrac times tbl name column w)
    as [[o | e] w']; [| reflexivity].
  destruct (name_zz !! species); reflexivity.
Qed.


(** C7: for a species the table of atomic numbers does not know, the
    constructor of the ionization-fraction exporter raises, with [KeyError]
    from the lookup whenever the base constructor returned; nothing that is
    sequenced after the constructor runs, and the files are as they were. *)
Theorem unknown_species_fails_before_write (times : list Q) (tbl : table)
    (name : string) (column : option (list Q)) (vel_mid : list Q) (species : string)
    (w : world) :
  name_zz !! species = None ->
  exists e w',
    IonFracOutputFile.__init__ name_zz times tbl name column vel_mid species w
    = (Raise e, w') /\
    files w' = files w /\
    (forall o0 w0,
       CodeComparisonOutputFile.__init__ IonFrac times tbl name column w = (Ok o0, w0) ->
       e = KeyError species /\ w' = w0) /\
    (forall (A : Type) (k : OutputFile -> M A),
       (IonFracOutputFile.__init__ name_zz times tbl name column vel_mid species ≫= k) w
       = (Raise e, w')).
Proof.
  intros Hnone.
  pose proof (base_init_files IonFrac times tbl name column w) as Hfiles.
  pose proof (ionfrac_init_unfold times tbl name column vel_mid species w) as Hinit.
  destruct (CodeComparisonOutputFile.__init__ IonFrac times tbl name column w)
    as [[o0 | e] w0] eqn:Hbase; cbn in Hfiles.
  - rewrite Hnone in Hinit. exists (KeyError species), w0.
    split; [exact Hinit | split; [exact Hfiles | split]].
    + intros o1 w1 [= _ <-]. split; reflexivity.
    + intros A k. apply bind_raise, Hinit.
  - exists e, w0.
    split; [exact Hinit | split; [exact Hfiles | split]].
    + intros o1 w1 [=].
    + intros A k. apply bind_raise, Hinit.
Qed.

End IonFrac.



Lemma unknown_species_fails_before_write_witness :
  name_zz_excerpt !! "Xx" = None /\
  exists e w',
    IonFracOutputFile.__init__ name_zz_excerpt [2; 3] TNone "model" None [1000; 2000]
      "Xx" empty_world = (Raise e, w') /\
    files w' = files empty_world /\
    (forall o0 w0,
       CodeComparisonOutputFile.__init__ IonFrac [2; 3] TNone "model" None empty_world
       = (Ok o0, w0) ->
       e = KeyError "Xx" /\ w' = w0) /\
    (forall (A : Type) (k : OutputFile -> M A),
       (IonFracOutputFile.__init__ name_zz_excerpt [2; 3] TNone "model" None
          [1000; 2000] "Xx" ≫= k) empty_world
       = (Raise e, w')).
Proof.
  assert (H1 : name_zz_excerpt !! "Xx" = None) by reflexivity.
  split; [exact H1 |].
  exact (unknown_species_fails_before_write name_zz_excerpt [2; 3] TNone "model" None
           [1000; 2000] "Xx" empty_world H1).
Defined.

(** ** Powers of ten *)

Lemma ten_nonzero : ~ 10 == 0.
Proof. discriminate. Qed.

Lemma pow10_pos (e : Z) : 0 < pow10 e.
Proof. apply Qpower_0_lt. reflexivity. Qed.

Lemma pow10_plus (a b : Z) : pow10 (a + b) == pow10 a * pow10 b.
Proof. apply Qpower_plus, ten_nonzero. Qed.

Lemma pow10_0 : pow10 0 == 1.
Proof. reflexivity. Qed.

Lemma pow10_succ (e : Z) : pow10 (e + 1) == pow10 e * 10.
Proof. rewrite pow10_plus. reflexivity. Qed.

Lemma pow10_pred (e : Z) : pow10 (e - 1) * 10 == pow10 e.
Proof.
  rewrite <- (pow10_succ (e - 1)). replace (e - 1 + 1)%Z with e by lia. reflexivity.
Qed.

Lemma pow10_le (a b : Z) : (a <= b)%Z -> pow10 a <= pow10 b.
Proof. intros H. apply Qpower_le_compat_l; [exact H | discriminate]. Qed.

Lemma pow10_inject (n : Z) : (0 <= n)%Z -> pow10 n == inject_Z (10 ^ n).
Proof. intros H. unfold pow10. now rewrite Zpower_Qpower. Qed.

Lemma pow10_cancel (a : Z) : pow10 a * pow10 (- a) == 1.
Proof. rewrite <- pow10_plus, Z.add_opp_diag_r. reflexivity. Qed.

(** A positive integer is below ten to the number of its binary digits. *)
Lemma below_pow10_log2 (n : Z) :
  (0 < n)%Z -> inject_Z n < pow10 (Z.of_nat (S (Z.to_nat (Z.log2 n)))).
Proof.
  intros Hn.
  pose proof (Z.log2_nonneg n) as H0.
  destruct (Z.log2_spec n Hn) as [_ Hlt].
  rewrite Nat2Z.inj_succ, Z2Nat.id by exact H0.
  rewrite pow10_inject by lia. rewrite <- Zlt_Qlt.
  eapply Z.lt_le_trans; [exact Hlt |].
  apply Z.pow_le_mono_l. lia.
Qed.

(** ** The decimal exponent *)

Lemma exponent_up_spec (fuel : nat) (a : Q) (e : Z) :
  pow10 e <= a -> a < pow10 (e + Z.of_nat fuel) ->
  pow10 (exponent_up fuel a e) <= a < pow10 (exponent_up fuel a e + 1).
Proof.
  revert e. induction fuel as [|fuel IH]; intros e Hlo Hhi.
  - rewrite Z.add_0_r in Hhi. lra.
  - cbn [exponent_up]. destruct (Qlt_le_dec a (pow10 (e + 1))) as [Hlt | Hge].
    + split; assumption.
    + apply IH; [exact Hge |].
      replace (e + 1 + Z.of_nat fuel)%Z with (e + Z.of_nat (S fuel))%Z by lia.
      exact Hhi.
Qed.

Lemma exponent_down_spec (fuel : nat) (a : Q) (e : Z) :
  a < pow10 (e + 1) -> pow10 (e + 1 - Z.of_nat fuel) <= a ->
  pow10 (exponent_down fuel a e) <= a < pow10 (exponent_down fuel a e + 1).
Proof.
  revert e. induction fuel as [|fuel IH]; intros e Hhi Hlo.
  - rewrite Z.sub_0_r in Hlo. lra.
  - cbn [exponent_down]. destruct (Qlt_le_dec a (pow10 e)) as [Hlt | Hge].
    + apply IH.
      * replace (e - 1 + 1)%Z with e by lia. exact Hlt.
      * replace (e - 1 + 1 - Z.of_nat fuel)%Z with (e + 1 - Z.of_nat (S fuel))%Z by lia.
        exact Hlo.
    + split; assumption.
Qed.

Lemma Q_le_num (a : Q) : 0 < a -> a <= inject_Z (Qnum a).
Proof.
  destruct a as [n d]. unfold Qlt, Qle, inject_Z. cbn. intros H. nia.
Qed.

Lemma Q_ge_inv_den (a : Q) : 0 < a -> / inject_Z (Z.pos (Qden a)) <= a.
Proof.
  destruct a as [n d]. unfold Qlt, Qle, Qinv, inject_Z. cbn. intros H. nia.
Qed.

Lemma exponent10_spec (a : Q) :
  0 < a -> pow10 (exponent10 a) <= a < pow10 (exponent10 a + 1).
Proof.
  intros Hpos. unfold exponent10.
  destruct (Qlt_le_dec a 1) as [Hlt | Hge].
  - apply exponent_down_spec; [exact Hlt |].
    set (k := Z.of_nat (S (Z.to_nat (Z.log2 (Z.pos (Qden a)))))).
    replace (-1 + 1 - k)%Z with (- k)%Z by lia.
    pose proof (below_pow10_log2 (Z.pos (Qden a)) ltac:(lia)) as Hden. fold k in Hden.
    pose proof (Q_ge_inv_den a Hpos) as Hinv.
    eapply Qle_trans; [| exact Hinv].
    assert (Hd : 0 < inject_Z (Z.pos (Qden a))) by reflexivity.
    apply Qle_shift_inv_l; [exact Hd |].
    pose proof (pow10_cancel k) as Hc. pose proof (pow10_pos (- k)) as Hp.
    rewrite Qmult_comm in Hc. nra.
  - apply exponent_up_spec; [exact Hge |].
    assert (Hn : (0 < Qnum a)%Z) by (destruct a; unfold Qlt in Hpos; cbn in *; lia).
    eapply Qle_lt_trans; [apply Q_le_num, Hpos |].
    apply (below_pow10_log2 (Qnum a) Hn).
Qed.

(** ** Rounding to significant digits *)

Lemma sci_round_zero (prec : nat) (a : Q) : a == 0 -> sci_round prec a = (0, 0)%Z.
Proof.
  intros H. unfold sci_round.
  now rewrite (proj2 (Qeq_bool_iff a 0) H).
Qed.

Lemma inject_Z_ge_of_gt_pred (m n : Z) : inject_Z n - 1 < inject_Z m -> (n <= m)%Z.
Proof.
  unfold Qlt, Qminus, Qplus, Qopp, inject_Z. cbn. lia.
Qed.

Lemma inject_Z_le_of_lt_succ (m n : Z) : inject_Z m < inject_Z n + 1 -> (m <= n)%Z.
Proof.
  unfold Qlt, Qminus, Qplus, Qopp, inject_Z. cbn. lia.
Qed.

(** The scaled value lies between two powers of ten, and so does what it
    rounds to. *)
Lemma scaled_bounds (prec : nat) (a : Q) :
  0 < a ->
  let y := a * pow10 (Z.of_nat prec - exponent10 a) in
  inject_Z (10 ^ Z.of_nat prec) <= y < inject_Z (10 ^ (Z.of_nat prec + 1)) /\
  (10 ^ Z.of_nat prec <= py_round y <= 10 ^ (Z.of_nat prec + 1))%Z /\
  a == y * pow10 (exponent10 a - Z.of_nat prec).
Proof.
  intros Hpos y.
  destruct (exponent10_spec a Hpos) as [Hlo Hhi].
  set (e := exponent10 a) in *. set (p := Z.of_nat prec).
  pose proof (pow10_pos (p - e)) as Hs.
  assert (H1 : pow10 p == pow10 e * pow10 (p - e)).
  { rewrite <- pow10_plus. replace (e + (p - e))%Z with p by lia. reflexivity. }
  assert (H2 : pow10 (p + 1) == pow10 (e + 1) * pow10 (p - e)).
  { rewrite <- pow10_plus. replace (e + 1 + (p - e))%Z with (p + 1)%Z by lia. reflexivity. }
  assert (Hy : inject_Z (10 ^ p) <= y < inject_Z (10 ^ (p + 1))).
  { rewrite <- !pow10_inject by lia. rewrite H1, H2. unfold y. fold e p.
    split.
    - apply Qmult_le_compat_r; [exact Hlo | lra].
    - apply Qmult_lt_compat_r; [exact Hs | exact Hhi]. }
  split; [exact Hy | split].
  - pose proof (py_round_lower y). pose proof (py_round_upper y). split.
    + apply inject_Z_ge_of_gt_pred. lra.
    + apply inject_Z_le_of_lt_succ. lra.
  - unfold y. fold e p. rewrite <- Qmult_assoc, <- pow10_plus.
    replace (p - e + (e - p))%Z with 0%Z by lia. rewrite pow10_0. ring.
Qed.

Lemma sci_round_pos (prec : nat) (a : Q) :
  0 < a ->
  let (m, e) := sci_round prec a in
  (10 ^ Z.of_nat prec <= m < 10 ^ (Z.of_nat prec + 1))%Z /\
  (exponent10 a <= e <= exponent10 a + 1)%Z /\
  Qabs (sci_value prec m e - a) <= (1 # 2) * pow10 (exponent10 a - Z.of_nat prec).
Proof.
  intros Hpos.
  destruct (scaled_bounds prec a Hpos) as (Hy & Hm & Ha).
  unfold sci_round.
  assert (Hnz : Qeq_bool a 0 = false).
  { destruct (Qeq_bool a 0) eqn:E; [| reflexivity]. apply Qeq_bool_iff in E. lra. }
  rewrite Hnz. cbv zeta.
  set (e := exponent10 a) in *. set (p := Z.of_nat prec) in *.
  set (y := a * pow10 (p - e)) in *.
  pose proof (py_round_lower y) as Hrl. pose proof (py_round_upper y) as Hru.
  pose proof (pow10_pos (e - p)) as HP.
  assert (Herr : Qabs (inject_Z (py_round y) * pow10 (e - p) - a)
                 <= (1 # 2) * pow10 (e - p)).
  { apply Qabs_Qle_condition. rewrite Ha. split; nra. }
  destruct (py_round y =? 10 ^ (p + 1))%Z eqn:Ec.
  - apply Z.eqb_eq in Ec.
    assert (Hp10 : (10 ^ (p + 1) = 10 * 10 ^ p)%Z).
    { rewrite Z.pow_add_r by lia. lia. }
    assert (H0 : (0 < 10 ^ p)%Z) by (apply Z.pow_pos_nonneg; lia).
    split; [lia | split; [lia |]].
    unfold sci_value. fold p.
    assert (Hv : inject_Z (10 ^ p) * pow10 (e + 1 - p)
                 == inject_Z (py_round y) * pow10 (e - p)).
    { rewrite Ec, Hp10, inject_Z_mult.
      replace (e + 1 - p)%Z with (e - p + 1)%Z by lia. rewrite pow10_succ.
      change (inject_Z 10) with 10. ring. }
    rewrite Hv. exact Herr.
  - apply Z.eqb_neq in Ec. split; [lia | split; [lia |]].
    unfold sci_value. fold p. exact Herr.
Qed.

(** ** Digits *)

Lemma digit_value_char (d : Z) : (0 <= d <= 9)%Z -> digit_value (digit_char d) = Some d.
Proof.
  intros H.
  assert (Hd : d = 0%Z \/ d = 1%Z \/ d = 2%Z \/ d = 3%Z \/ d = 4%Z \/ d = 5%Z \/
               d = 6%Z \/ d = 7%Z \/ d = 8%Z \/ d = 9%Z) by lia.
  repeat (destruct Hd as [-> | Hd]; [reflexivity |]). subst. reflexivity.
Qed.

Lemma mod10_digit (n : Z) : (0 <= n mod 10 <= 9)%Z.
Proof. pose proof (Z.mod_pos_bound n 10 ltac:(lia)). lia. Qed.

Lemma all_digits_no_char (c : ascii) (s : string) :
  digit_value c = None -> all_digits s = true -> has_char c s = false.
Proof.
  intros Hc. induction s as [|a s IH]; [reflexivity |]. cbn.
  destruct (digit_value a) eqn:Ha; [| discriminate].
  intros Hs. rewrite (IH Hs), orb_false_r.
  destruct (Ascii.eqb a c) eqn:E; [| reflexivity].
  apply Ascii.eqb_eq in E. congruence.
Qed.

Lemma all_digits_app (s t : string) :
  all_digits (s ++ t) = all_digits s && all_digits t.
Proof.
  induction s as [|a s IH]; [reflexivity |].
  rewrite append_cons. cbn. destruct (digit_value a); [exact IH | reflexivity].
Qed.

Lemma digits_acc_app (s t : string) (acc : Z) :
  digits_acc (s ++ t) acc = digits_acc s acc ≫= digits_acc t.
Proof.
  revert acc. induction s as [|a s IH]; intros acc; [reflexivity |].
  rewrite append_cons. cbn. destruct (digit_value a); [apply IH | reflexivity].
Qed.

Lemma fixed_digits_app (k : nat) (n : Z) (acc : string) :
  fixed_digits k n acc = fixed_digits k n EmptyString ++ acc.
Proof.
  revert n acc. induction k as [|k IH]; intros n acc; [reflexivity |].
  cbn [fixed_digits]. rewrite IH, (IH _ (String _ EmptyString)).
  rewrite append_assoc. reflexivity.
Qed.

Lemma fixed_digits_length (k : nat) (n : Z) :
  String.length (fixed_digits k n EmptyString) = k.
Proof.
  revert n. induction k as [|k IH]; intros n; [reflexivity |].
  cbn [fixed_digits]. rewrite fixed_digits_app, length_append, IH. cbn. lia.
Qed.

Lemma fixed_digits_all_digits (k : nat) (n : Z) :
  all_digits (fixed_digits k n EmptyString) = true.
Proof.
  revert n. induction k as [|k IH]; intros n; [reflexivity |].
  cbn [fixed_digits]. rewrite fixed_digits_app, all_digits_app, IH. cbn.
  now rewrite (digit_value_char _ (mod10_digit n)).
Qed.

Lemma digits_acc_fixed (k : nat) (n acc : Z) :
  digits_acc (fixed_digits k n EmptyString) acc
  = Some (acc * 10 ^ Z.of_nat k + n mod 10 ^ Z.of_nat k)%Z.
Proof.
  revert n acc. induction k as [|k IH]; intros n acc.
  - cbn. rewrite Z.mod_1_r. f_equal. lia.
  - cbn [fixed_digits]. rewrite fixed_digits_app, digits_acc_app, IH. cbn.
    rewrite (digit_value_char _ (mod10_digit n)). f_equal.
    rewrite Nat2Z.inj_succ, Z.pow_succ_r by lia.
    rewrite (Z.rem_mul_r n 10 (10 ^ Z.of_nat k)) by lia. lia.
Qed.

Lemma fixed_digits_front (k : nat) (n : Z) (acc : string) :
  fixed_digits (S k) n acc
  = String (digit_char ((n / 10 ^ Z.of_nat k) mod 10)) (fixed_digits k n acc).
Proof.
  revert n acc. induction k as [|k IH]; intros n acc.
  - cbn. now rewrite Z.div_1_r.
  - change (fixed_digits (S (S k)) n acc)
      with (fixed_digits (S k) (n / 10) (String (digit_char (n mod 10)) acc)).
    rewrite IH. cbn [fixed_digits]. f_equal. f_equal.
    rewrite Nat2Z.inj_succ, Z.pow_succ_r by lia.
    rewrite Z.div_div by lia. reflexivity.
Qed.

(** The printed mantissa, read back, gives the digits and their number
    after the point. *)
Lemma mantissa_value_string (prec : nat) (m : Z) :
  (0 <= m < 10 ^ (Z.of_nat prec + 1))%Z ->
  mantissa_value (mantissa_string prec m) = Some (m, prec).
Proof.
  intros Hm.
  assert (Hval : digits_value (fixed_digits (S prec) m EmptyString) = Some m).
  { rewrite fixed_digits_front. cbn [digits_value].
    rewrite <- fixed_digits_front, digits_acc_fixed. f_equal.
    rewrite Nat2Z.inj_succ, Z.mul_0_l, Z.add_0_l.
    apply Z.mod_small. unfold Z.succ. exact Hm. }
  unfold mantissa_string. rewrite fixed_digits_front in Hval |- *.
  set (d := digit_char ((m / 10 ^ Z.of_nat prec) mod 10)) in *.
  set (rest := fixed_digits prec m EmptyString) in *.
  assert (Hd : digit_value d = Some ((m / 10 ^ Z.of_nat prec) mod 10)%Z)
    by apply digit_value_char, mod10_digit.
  assert (Hdot : has_char "." (String d EmptyString) = false).
  { apply all_digits_no_char; [reflexivity |]. cbn. now rewrite Hd. }
  assert (Hrest : has_char "." rest = false).
  { apply all_digits_no_char; [reflexivity | apply fixed_digits_all_digits]. }
  unfold mantissa_value. destruct prec as [|prec].
  - change rest with EmptyString in *.
    rewrite (split_on_no_sep "." _ Hdot), Hval. reflexivity.
  - change (String d (String "." rest)) with (String d EmptyString ++ String "." rest).
    rewrite (split_on_app "." _ _ Hdot), (split_on_no_sep "." _ Hrest).
    change (String d EmptyString ++ rest) with (String d rest).
    rewrite Hval. unfold rest. rewrite fixed_digits_length. reflexivity.
Qed.

Lemma digits_acc_string_of_uint (d : Decimal.uint) (acc : nat) :
  digits_acc (NilEmpty.string_of_uint d) (Z.of_nat acc)
  = Some (Z.of_nat (Nat.of_uint_acc d acc)).
Proof.
  revert acc.
  induction d; intros acc; cbn [NilEmpty.string_of_uint digits_acc Nat.of_uint_acc];
    [reflexivity | ..];
    match goal with
    | |- context [digit_value ?c] =>
        let v := eval vm_compute in (digit_value c) in change (digit_value c) with v
    end;
    cbv iota beta; rewrite <- IHd; f_equal; rewrite Nat.tail_mul_spec; lia.
Qed.

Lemma string_of_uint_all_digits (d : Decimal.uint) :
  all_digits (NilEmpty.string_of_uint d) = true.
Proof. induction d; cbn; auto. Qed.

Lemma digits_acc_str_nat (n : nat) : digits_acc (str_nat n) 0 = Some (Z.of_nat n).
Proof.
  unfold str_nat. change 0%Z with (Z.of_nat 0).
  rewrite (digits_acc_string_of_uint (Nat.to_uint n) 0).
  change (Nat.of_uint_acc (Nat.to_uint n) 0) with (Nat.of_uint (Nat.to_uint n)).
  now rewrite DecimalNat.Unsigned.of_to.
Qed.

(** ** The printed float, read back *)

Lemma has_char_cons_ne (c a : ascii) (s : string) :
  a <> c -> has_char c (String a s) = has_char c s.
Proof. intros H. cbn. now rewrite (proj2 (Ascii.eqb_neq a c) H). Qed.

Lemma digit_char_is_digit (n : Z) : exists d, digit_value (digit_char (n mod 10)) = Some d.
Proof. eexists. apply digit_value_char, mod10_digit. Qed.

Lemma digit_ne (a c : ascii) (d : Z) :
  digit_value a = Some d -> digit_value c = None -> a <> c.
Proof. congruence. Qed.

Lemma mantissa_string_shape (prec : nat) (m : Z) :
  mantissa_string prec m
  = String (digit_char ((m / 10 ^ Z.of_nat prec) mod 10))
      (match prec with
       | O => EmptyString
       | S _ => String "." (fixed_digits prec m EmptyString)
       end).
Proof.
  unfold mantissa_string. rewrite fixed_digits_front. destruct prec; reflexivity.
Qed.

Lemma mantissa_string_chars (c : ascii) (prec : nat) (m : Z) :
  digit_value c = None -> c <> "."%char ->
  has_char c (mantissa_string prec m) = false.
Proof.
  intros Hc Hdot. rewrite mantissa_string_shape.
  destruct (digit_char_is_digit (m / 10 ^ Z.of_nat prec)) as [d Hd].
  rewrite has_char_cons_ne by (eapply digit_ne; eassumption).
  destruct prec as [|prec]; [reflexivity |].
  rewrite has_char_cons_ne by congruence.
  apply all_digits_no_char; [exact Hc | apply fixed_digits_all_digits].
Qed.

Lemma exponent_string_chars (c : ascii) (e : Z) :
  digit_value c = None -> c <> "-"%char -> c <> "+"%char ->
  has_char c (exponent_string e) = false.
Proof.
  intros Hc Hm Hp. unfold exponent_string. rewrite !has_char_app.
  assert (Hs : has_char c (str_nat (Z.abs_nat e)) = false).
  { apply all_digits_no_char; [exact Hc | apply string_of_uint_all_digits]. }
  assert (H1 : has_char c "-" = false)
    by (rewrite has_char_cons_ne; [reflexivity | congruence]).
  assert (H2 : has_char c "+" = false)
    by (rewrite has_char_cons_ne; [reflexivity | congruence]).
  assert (H3 : has_char c "0" = false).
  { rewrite has_char_cons_ne; [reflexivity |]. intros <-. discriminate Hc. }
  rewrite Hs. destruct (e <? 0)%Z, (Z.abs e <? 10)%Z; rewrite ?H1, ?H2, ?H3; reflexivity.
Qed.

Lemma digits_value_padded (pad : string) (n : nat) :
  pad = "0" \/ pad = EmptyString ->
  digits_value (pad ++ str_nat n) = Some (Z.of_nat n).
Proof.
  intros [-> | ->].
  - change ("0" ++ str_nat n) with (String "0" (str_nat n)). cbn.
    apply digits_acc_str_nat.
  - rewrite append_nil. pose proof (str_nat_nonempty n) as Hne.
    unfold digits_value. destruct (str_nat n) eqn:E; [discriminate |].
    rewrite <- E. apply digits_acc_str_nat.
Qed.

Lemma signed_value_exponent (e : Z) : signed_value (exponent_string e) = Some e.
Proof.
  unfold exponent_string.
  assert (Hpad : digits_value ((if (Z.abs e <? 10)%Z then "0" else "")
                               ++ str_nat (Z.abs_nat e)) = Some (Z.abs e)).
  { rewrite digits_value_padded by (destruct (Z.abs e <? 10)%Z; auto).
    now rewrite Zabs2Nat.id_abs. }
  destruct (e <? 0)%Z eqn:E.
  - change ("-" ++ ?s) with (String "-" s). cbn [signed_value].
    rewrite Hpad. cbn. f_equal. apply Z.ltb_lt in E. lia.
  - change ("+" ++ ?s) with (String "+" s). cbn [signed_value].
    rewrite Hpad. f_equal. apply Z.ltb_ge in E. lia.
Qed.

Lemma sci_round_mantissa_range (prec : nat) (a : Q) :
  0 <= a -> (0 <= fst (sci_round prec a) < 10 ^ (Z.of_nat prec + 1))%Z.
Proof.
  intros Ha.
  assert (H0 : (0 < 10 ^ Z.of_nat prec)%Z) by (apply Z.pow_pos_nonneg; lia).
  assert (H1 : (0 < 10 ^ (Z.of_nat prec + 1))%Z) by (apply Z.pow_pos_nonneg; lia).
  destruct (Qeq_dec a 0) as [Hz | Hnz].
  - rewrite (sci_round_zero prec a Hz). cbn. lia.
  - assert (Hpos : 0 < a) by (apply Qle_lteq in Ha as [H | H]; [exact H | now symmetry in H]).
    pose proof (sci_round_pos prec a Hpos) as H.
    destruct (sci_round prec a) as [m e]. cbn. lia.
Qed.

Lemma parse_float_not_minus (d : ascii) (s : string) :
  d <> "-"%char -> parse_float (String d s) = unsigned_float (String d s).
Proof.
  intros H. destruct d as [[] [] [] [] [] [] [] []]; try reflexivity. contradiction.
Qed.

Lemma unsigned_float_sci (prec : nat) (m e : Z) :
  (0 <= m < 10 ^ (Z.of_nat prec + 1))%Z ->
  unsigned_float (mantissa_string prec m ++ "E" ++ exponent_string e)
  = Some (sci_value prec m e).
Proof.
  intros Hm. unfold unsigned_float.
  change ("E" ++ exponent_string e) with (String "E" (exponent_string e)).
  rewrite split_on_app by (apply mantissa_string_chars; [reflexivity | discriminate]).
  rewrite split_on_no_sep
    by (apply exponent_string_chars; [reflexivity | discriminate | discriminate]).
  rewrite (mantissa_value_string prec m Hm). cbn.
  rewrite signed_value_exponent. reflexivity.
Qed.

(** Reading back what [format_E] printed gives the rounded value. *)
Lemma parse_format_E (prec : nat) (x : Q) :
  parse_float (format_E prec x) = Some (rounded prec x).
Proof.
  unfold format_E, rounded.
  pose proof (sci_round_mantissa_range prec (Qabs x) (Qabs_nonneg x)) as Hm.
  destruct (sci_round prec (Qabs x)) as [m e]. cbn [fst] in Hm.
  destruct (Qlt_le_dec x 0).
  - change ("-" ++ ?s) with (String "-" s). cbn [parse_float].
    rewrite (unsigned_float_sci prec m e Hm). reflexivity.
  - rewrite append_nil.
    destruct (digit_char_is_digit (m / 10 ^ Z.of_nat prec)) as [d Hd].
    pose proof (unsigned_float_sci prec m e Hm) as Hu.
    rewrite mantissa_string_shape, append_cons in Hu |- *.
    rewrite parse_float_not_minus by (eapply digit_ne; [exact Hd | reflexivity]).
    exact Hu.
Qed.

Lemma agree_to_weaken (d d' : nat) (x v : Q) :
  (d' <= d)%nat -> agree_to d x v -> agree_to d' x v.
Proof.
  intros Hd [Hz Hnz]. split; [exact Hz |].
  intros Hx. eapply Qle_trans; [apply (Hnz Hx) |].
  apply Qmult_le_l; [reflexivity |]. apply pow10_le. lia.
Qed.

Lemma Qabs_nonzero_pos (x : Q) : ~ x == 0 -> 0 < Qabs x.
Proof.
  intros Hnz. destruct (Qlt_le_dec x 0) as [Hneg | Hge].
  - rewrite Qabs_neg by lra. lra.
  - rewrite Qabs_pos by exact Hge.
    apply Qle_lteq in Hge as [H | H]; [exact H |]. symmetry in H. contradiction.
Qed.

(** What is read back agrees with what was printed to [prec + 1]
    significant digits. *)
Lemma rounded_agrees (prec : nat) (x : Q) : agree_to (S prec) x (rounded prec x).
Proof.
  unfold rounded.
  destruct (Qeq_dec x 0) as [Hz | Hnz].
  - assert (Ha : Qabs x == 0) by (rewrite Hz; reflexivity).
    rewrite (sci_round_zero prec _ Ha).
    split; [| contradiction]. intros _.
    unfold sci_value. change (inject_Z 0) with 0.
    destruct (Qlt_le_dec x 0); ring.
  - split; [contradiction |]. intros _.
    pose proof (Qabs_nonzero_pos x Hnz) as Hpos.
    pose proof (sci_round_pos prec (Qabs x) Hpos) as H.
    destruct (sci_round prec (Qabs x)) as [m e].
    destruct H as (_ & _ & Herr).
    replace (exponent10 (Qabs x) + 1 - Z.of_nat (S prec))%Z
      with (exponent10 (Qabs x) - Z.of_nat prec)%Z by lia.
    destruct (Qlt_le_dec x 0) as [Hneg | Hge].
    + rewrite (Qabs_neg x) in Herr at 1 by lra.
      rewrite <- Qabs_opp.
      assert (Heq : - (- sci_value prec m e - x) == sci_value prec m e - - x) by ring.
      rewrite Heq. exact Herr.
    + rewrite (Qabs_pos x) in Herr at 1 by lra. exact Herr.
Qed.

(** ** Significant digits of a printed float *)

Lemma count_digits_app (s t : string) :
  count_digits (s ++ t) = (count_digits s + count_digits t)%nat.
Proof.
  induction s as [|a s IH]; [reflexivity |].
  rewrite append_cons. cbn. destruct (digit_value a); rewrite IH; reflexivity.
Qed.

Lemma count_digits_all (s : string) :
  all_digits s = true -> count_digits s = String.length s.
Proof.
  induction s as [|a s IH]; [reflexivity |]. cbn.
  destruct (digit_value a); [| discriminate]. intros H. now rewrite IH.
Qed.

Lemma count_digits_mantissa (prec : nat) (m : Z) :
  count_digits (mantissa_string prec m) = S prec.
Proof.
  rewrite mantissa_string_shape.
  destruct (digit_char_is_digit (m / 10 ^ Z.of_nat prec)) as [d Hd].
  cbn [count_digits]. rewrite Hd. f_equal.
  destruct prec as [|prec]; [reflexivity |].
  cbn [count_digits]. change (digit_value ".") with (@None Z). cbv iota.
  rewrite count_digits_all by apply fixed_digits_all_digits.
  apply fixed_digits_length.
Qed.

Lemma format_E_chars (c : ascii) (prec : nat) (x : Q) :
  not_in_float c -> has_char c (format_E prec x) = false.
Proof.
  intros (Hd & Hm & Hp & Hdot & HE). unfold format_E.
  destruct (sci_round prec (Qabs x)) as [m e].
  rewrite !has_char_app.
  rewrite (mantissa_string_chars c prec m Hd Hdot).
  rewrite (exponent_string_chars c e Hd Hm Hp).
  assert (H1 : has_char c "-" = false)
    by (rewrite has_char_cons_ne; [reflexivity | congruence]).
  assert (H2 : has_char c "E" = false)
    by (rewrite has_char_cons_ne; [reflexivity | congruence]).
  rewrite H2. destruct (Qlt_le_dec x 0); rewrite ?H1; reflexivity.
Qed.

Lemma format_E_nonempty (prec : nat) (x : Q) : nonempty (format_E prec x) = true.
Proof.
  unfold format_E. destruct (sci_round prec (Qabs x)) as [m e].
  destruct (Qlt_le_dec x 0); [reflexivity |].
  rewrite append_nil, mantissa_string_shape. reflexivity.
Qed.

(** [%.<prec>E] prints [prec + 1] significant digits. *)
Lemma format_E_significant_digits (prec : nat) (x : Q) :
  significant_digits (format_E prec x) = S prec.
Proof.
  unfold significant_digits, format_E.
  destruct (sci_round prec (Qabs x)) as [m e].
  set (sign := if Qlt_le_dec x 0 then "-" else "").
  assert (Hsign : has_char "E" sign = false /\ count_digits sign = 0%nat)
    by (unfold sign; destruct (Qlt_le_dec x 0); split; reflexivity).
  destruct Hsign as [Hs1 Hs2].
  rewrite <- append_assoc.
  change ("E" ++ exponent_string e) with (String "E" (exponent_string e)).
  rewrite split_on_app.
  - rewrite count_digits_app, Hs2. apply count_digits_mantissa.
  - rewrite has_char_app, Hs1.
    apply mantissa_string_chars; [reflexivity | discriminate].
Qed.

(** ** Writing the file *)

Lemma open_w_ok (path : string) (w : world) :
  writable w path = true -> open_w path w = (Ok tt, with_file path EmptyString w).
Proof. intros H. unfold open_w. now rewrite H. Qed.

Lemma with_file_twice (path old new : string) (w : world) :
  with_file path new (with_file path old w) = with_file path new w.
Proof. unfold with_file, set_files. cbn. now rewrite insert_insert_eq. Qed.

Lemma f_write_with_file (path old text : string) (w : world) :
  f_write path text (with_file path old w)
  = (Ok tt, with_file path (old ++ text) w).
Proof.
  unfold f_write. cbn [files with_file set_files].
  rewrite lookup_insert_eq. cbn [default].
  f_equal. apply (with_file_twice path old (old ++ text) w).
Qed.

Lemma len_table_with_file (path text : string) (l : nat) (df : DataFrame) (w : world) :
  frames w !! l = Some df ->
  len_table (TFrame l) (with_file path text w)
  = (Ok (index_len df), with_file path text w).
Proof. intros H. unfold len_table. cbn. now rewrite H. Qed.

Lemma table_to_csv_with_file (fmt : Q -> string) (path text : string) (l : nat)
    (df : DataFrame) (w : world) :
  frames w !! l = Some df ->
  table_to_csv fmt path (TFrame l) (with_file path text w)
  = (Ok tt, with_file path (text ++ to_csv fmt df) w).
Proof.
  intros H. unfold table_to_csv. cbn [frames with_file set_files].
  rewrite H. apply f_write_with_file.
Qed.

Lemma write_lines_app (a b : list string) :
  write_lines (a ++ b) = write_lines a ++ write_lines b.
Proof.
  induction a as [|x a IH]; [reflexivity |].
  cbn [app]. unfold write_lines in *. cbn [foldr]. rewrite IH.
  now rewrite !append_assoc.
Qed.

Section Writing.

Variable str_float : Q -> string.

Lemma write_content (o : OutputFile) (dest : string) (w : world) (l : nat)
    (df : DataFrame) :
  data_table o = TFrame l -> frames w !! l = Some df ->
  writable w (path_join dest (Writer.fname o)) = true ->
  Writer.write str_float o dest w
  = (Ok tt,
     with_file (path_join dest (Writer.fname o))
       (write_lines (header_lines str_float o (index_len df) ++ body_lines df)) w).
Proof.
  intros Ht Hl Hw. unfold Writer.write. cbv zeta.
  set (path := path_join dest (Writer.fname o)) in *.
  unfold mbind, M_bind.
  rewrite (open_w_ok path w Hw), f_write_with_file, Ht,
    (len_table_with_file path _ l df w Hl), !f_write_with_file,
    (table_to_csv_with_file _ path _ l df w Hl).
  do 2 f_equal.
  rewrite write_lines_app. fold (to_csv (format_E 6) df). f_equal.
  unfold write_lines, header_lines, Writer.times_str. cbn [foldr].
  rewrite append_nil, !append_assoc, append_empty_r. reflexivity.
Qed.

End Writing.

Lemma rows_length (df : DataFrame) : length (rows df) = index_len df.
Proof. unfold rows. now rewrite length_fmap, length_seq. Qed.

Lemma row_length (df : DataFrame) (r : list cell) :
  r ∈ rows df -> length r = length (columns df).
Proof.
  unfold rows. intros H. apply list_elem_of_fmap in H as (i & -> & _).
  unfold row. apply length_fmap.
Qed.

(** C8, amended: the writer of the base class (spectra, tgas, eden) writes
    the [#NTIMES] line, the [#NWAVE] or [#NVEL] line with the number of rows,
    the [#TIMES[d]] line with the times joined by spaces, the comment line
    of the class, and then one line per row of the table, in the order of
    the rows, the cells of a row joined by spaces, with no line of column
    names and no index in front; every number is printed by [%.6E], six
    digits after the point, which makes seven significant digits. *)
Theorem write_layout (str_float : Q -> string) (o : OutputFile) (dest : string)
    (w : world) (l : nat) (df : DataFrame) :
  base_format (cls o) -> extra o = NoAttrs ->
  data_table o = TFrame l -> frames w !! l = Some df ->
  writable w (path_join dest (data_type (cls o) ++ "_" ++ model_name o ++ "_tardis.txt"))
  = true ->
  Writer.write str_float o dest w
  = (Ok tt,
     with_file
       (path_join dest (data_type (cls o) ++ "_" ++ model_name o ++ "_tardis.txt"))
       (write_lines
          ([ "#NTIMES: " ++ str_nat (length (times o));
             "#N" ++ first_column_name (cls o) ++ ": " ++ str_nat (index_len df);
             "#TIMES[d]: " ++ String.concat " " (str_float <$> times o);
             class_column_description (cls o) ]
           ++ ((fun r => csv_line (format_cell (format_E 6) <$> r)) <$> rows df))) w) /\
  (first_column_name (cls o) = "WAVE" \/ first_column_name (cls o) = "VEL") /\
  length (rows df) = index_len df /\
  (forall r, r ∈ rows df -> length r = length (columns df)) /\
  (forall x : Q,
     format_cell (format_E 6) (Some x) = format_E 6 x /\
     significant_digits (format_E 6 x) = 7%nat /\
     parse_float (format_E 6 x) = Some (rounded 6 x) /\
     agree_to 7 x (rounded 6 x)).
Proof.
  intros Hc Hextra Ht Hl Hw.
  split; [| split; [| split; [| split]]].
  - rewrite (write_content str_float o dest w l df Ht Hl Hw).
    unfold header_lines, body_lines, column_description, Writer.fname.
    rewrite Hextra. reflexivity.
  - destruct Hc as [-> | [-> | ->]]; auto.
  - apply rows_length.
  - apply row_length.
  - intros x. split; [reflexivity | split; [| split]].
    + apply format_E_significant_digits.
    + apply parse_format_E.
    + apply rounded_agrees.
Qed.

Lemma write_layout_witness :
  (base_format (cls spectral_object) /\ extra spectral_object = NoAttrs /\
   data_table spectral_object = TFrame 0 /\
   frames world_with_frame !! 0%nat = Some one_frame /\
   writable world_with_frame
     (path_join "." (data_type (cls spectral_object) ++ "_"
                     ++ model_name spectral_object ++ "_tardis.txt")) = true) /\
  Writer.write str_two spectral_object "." world_with_frame
  = (Ok tt,
     with_file
       (path_join "." (data_type (cls spectral_object) ++ "_"
                       ++ model_name spectral_object ++ "_tardis.txt"))
       (write_lines
          ([ "#NTIMES: " ++ str_nat (length (times spectral_object));
             "#N" ++ first_column_name (cls spectral_object) ++ ": "
             ++ str_nat (index_len one_frame);
             "#TIMES[d]: " ++ String.concat " " (str_two <$> times spectral_object);
             class_column_description (cls spectral_object) ]
           ++ ((fun r => csv_line (format_cell (format_E 6) <$> r)) <$> rows one_frame)))
       world_with_frame).
Proof.
  assert (H1 : base_format (cls spectral_object)) by (left; reflexivity).
  assert (H2 : extra spectral_object = NoAttrs) by reflexivity.
  assert (H3 : data_table spectral_object = TFrame 0) by reflexivity.
  assert (H4 : frames world_with_frame !! 0%nat = Some one_frame) by reflexivity.
  assert (H5 : writable world_with_frame
                 (path_join "." (data_type (cls spectral_object) ++ "_"
                                 ++ model_name spectral_object ++ "_tardis.txt")) = true)
    by reflexivity.
  split; [repeat split; assumption |].
  exact (proj1 (write_layout str_two spectral_object "." world_with_frame 0 one_frame
                  H1 H2 H3 H4 H5)).
Defined.

(** C8, as stated, fails: the values of a written file have seven
    significant digits, not six; with six, 1234.567 would be printed as
    1.23457E+03. *)
Lemma written_values_have_seven_digits :
  exists o w1 w2,
    from_simulations Spectral one_simulation "model" empty_world = (Ok o, w1) /\
    Writer.write str_two o "." w1 = (Ok tt, w2) /\
    files w2 !! "./spectra_model_tardis.txt"
    = Some (write_lines
              [ "#NTIMES: 1"; "#NWAVE: 2"; "#TIMES[d]: 2.0";
                class_column_description Spectral;
                "1.234567E+03 6.666667E-01";
                "5.000000E+03 8.000000E+00" ]) /\
    words "1.234567E+03 6.666667E-01" = ["1.234567E+03"; "6.666667E-01"] /\
    significant_digits "1.234567E+03" = 7%nat /\
    significant_digits "1.234567E+03" <> 6%nat /\
    format_E 6 (1234567 # 1000) = "1.234567E+03" /\
    format_E 5 (1234567 # 1000) = "1.23457E+03".
Proof.
  eexists _, _, _.
  split; [vm_compute; reflexivity |].
  split; [vm_compute; reflexivity |].
  split; [vm_compute; reflexivity |].
  split; [vm_compute; reflexivity |].
  split; [vm_compute; reflexivity |].
  split; [vm_compute; discriminate |].
  split; vm_compute; reflexivity.
Qed.

(** ** Reading the file back *)

Lemma write_lines_cons (l : string) (ls : list string) :
  write_lines (l :: ls) = l ++ String "010" (write_lines ls).
Proof. reflexivity. Qed.

Lemma split_lines (ls : list string) :
  Forall (fun l => has_char "010" l = false) ls ->
  split_on "010" (write_lines ls) = (ls ++ [EmptyString])%list.
Proof.
  induction 1 as [|l ls Hl _ IH]; [reflexivity |].
  rewrite write_lines_cons, (split_on_app "010" l _ Hl), IH. reflexivity.
Qed.

Lemma filter_none {A : Type} (P : A -> bool) (l : list A) :
  Forall (fun x => P x = false) l -> List.filter P l = [].
Proof.
  induction 1 as [|x l Hx _ IH]; [reflexivity |]. cbn. now rewrite Hx.
Qed.

Lemma filter_all {A : Type} (P : A -> bool) (l : list A) :
  Forall (fun x => P x = true) l -> List.filter P l = l.
Proof.
  induction 1 as [|x l Hx _ IH]; [reflexivity |]. cbn. now rewrite Hx, IH.
Qed.

(** The data lines of a file are the lines written after the comments. *)
Lemma data_lines_written (comments body : list string) :
  Forall (fun l => is_comment l = true /\ has_char "010" l = false) comments ->
  Forall (fun l => nonempty l = true /\ is_comment l = false /\
                   has_char "010" l = false) body ->
  data_lines (write_lines (comments ++ body)%list) = body.
Proof.
  intros Hc Hb. unfold data_lines.
  rewrite split_lines.
  - rewrite <- app_assoc, !List.filter_app.
    rewrite (filter_none _ comments), (filter_all _ body); [apply app_nil_r | |].
    + eapply Forall_impl; [exact Hb |]. cbn. intros l (-> & -> & _). reflexivity.
    + eapply Forall_impl; [exact Hc |]. cbn. intros l [-> _]. apply andb_false_r.
  - apply Forall_app. split.
    + eapply Forall_impl; [exact Hc |]. cbn. tauto.
    + eapply Forall_impl; [exact Hb |]. cbn. tauto.
Qed.

Lemma concat_cons2 (sep x y : string) (l : list string) :
  String.concat sep (x :: y :: l) = x ++ sep ++ String.concat sep (y :: l).
Proof. reflexivity. Qed.

Lemma has_char_concat (c sep : ascii) (toks : list string) :
  sep <> c -> Forall (fun t => has_char c t = false) toks ->
  has_char c (String.concat (String sep EmptyString) toks) = false.
Proof.
  intros Hsep. induction toks as [|x [|y l] IH]; intros HF.
  - reflexivity.
  - cbn. now inversion HF.
  - rewrite concat_cons2, !has_char_app.
    inversion HF as [|? ? Hx HF']; subst.
    rewrite Hx, (IH HF'), has_char_cons_ne by exact Hsep. reflexivity.
Qed.

Lemma nonempty_app_l (a b : string) : nonempty a = true -> nonempty (a ++ b) = true.
Proof. destruct a; [discriminate | reflexivity]. Qed.

Lemma nonempty_concat (sep : string) (toks : list string) :
  toks <> [] -> Forall (fun t => nonempty t = true) toks ->
  nonempty (String.concat sep toks) = true.
Proof.
  destruct toks as [|x [|y l]]; intros Hne HF; [congruence | |].
  - cbn. now inversion HF.
  - rewrite concat_cons2. apply nonempty_app_l. now inversion HF.
Qed.

Lemma no_hash_not_comment (s : string) :
  has_char "#" s = false -> is_comment s = false.
Proof.
  destruct s as [|a s]; [reflexivity |]. cbn [has_char].
  intros H. apply orb_false_iff in H as [H _]. apply Ascii.eqb_neq in H.
  destruct a as [[] [] [] [] [] [] [] []]; try reflexivity. contradiction.
Qed.

Lemma csv_line_concat (fields : list string) :
  Forall (fun t => nonempty t = true) fields ->
  csv_line fields = String.concat " " fields.
Proof.
  intros HF. destruct fields as [|f [|g rest]]; try reflexivity.
  - destruct f; [| reflexivity]. inversion HF. discriminate.
  - destruct f; reflexivity.
Qed.

Lemma newline_not_in_float : not_in_float "010".
Proof. repeat split; discriminate. Qed.

Lemma hash_not_in_float : not_in_float "#".
Proof. repeat split; discriminate. Qed.

Lemma space_not_in_float : not_in_float " ".
Proof. repeat split; discriminate. Qed.

(** The line of a row of numbers: it is a data line, its columns are the
    printed numbers, and they read back as the rounded numbers. *)
Lemma numeric_line (prec : nat) (qs : list Q) :
  qs <> [] ->
  let line := csv_line (format_cell (format_E prec) <$> (Some <$> qs)) in
  nonempty line = true /\ is_comment line = false /\ has_char "010" line = false /\
  mapM parse_float (words line) = Some (rounded prec <$> qs).
Proof.
  intros Hne line.
  assert (Hfields : format_cell (format_E prec) <$> (Some <$> qs) = format_E prec <$> qs).
  { rewrite <- list_fmap_compose. reflexivity. }
  assert (Hnonempty : Forall (fun t => nonempty t = true) (format_E prec <$> qs)).
  { apply Forall_fmap, Forall_forall. intros q _. apply format_E_nonempty. }
  assert (Hchars : forall c, not_in_float c ->
            Forall (fun t => has_char c t = false) (format_E prec <$> qs)).
  { intros c Hc. apply Forall_fmap, Forall_forall. intros q _. now apply format_E_chars. }
  assert (Hline : line = String.concat " " (format_E prec <$> qs)).
  { unfold line. rewrite Hfields. now apply csv_line_concat. }
  rewrite Hline. split; [| split; [| split]].
  - apply nonempty_concat; [| exact Hnonempty]. destruct qs; [congruence | discriminate].
  - apply no_hash_not_comment, has_char_concat;
      [discriminate | apply Hchars, hash_not_in_float].
  - apply has_char_concat; [discriminate | apply Hchars, newline_not_in_float].
  - rewrite words_concat by (apply Hchars, space_not_in_float || exact Hnonempty).
    apply mapM_Some_2, Forall2_fmap, Forall_Forall2_diag, Forall_forall.
    intros q _. apply parse_format_E.
Qed.

Lemma header_lines_comments (str_float : Q -> string) (o : OutputFile) (n : nat) :
  (forall t, has_char "010" (str_float t) = false) -> extra o = NoAttrs ->
  Forall (fun l => is_comment l = true /\ has_char "010" l = false)
    (header_lines str_float o n).
Proof.
  intros Hstr Hextra.
  assert (Hnat : forall k, has_char "010" (str_nat k) = false).
  { intros k. apply all_digits_no_char; [reflexivity | apply string_of_uint_all_digits]. }
  unfold header_lines. repeat apply Forall_cons_2; [| | | | apply Forall_nil_2].
  - split; [reflexivity |]. rewrite has_char_app, Hnat. reflexivity.
  - split; [reflexivity |]. rewrite !has_char_app, Hnat.
    destruct (cls o); reflexivity.
  - split; [reflexivity |]. rewrite has_char_app.
    rewrite (has_char_concat "010" " "); [reflexivity | discriminate |].
    apply Forall_fmap, Forall_forall. intros t _. apply Hstr.
  - unfold column_description. rewrite Hextra. destruct (cls o); split; reflexivity.
Qed.

(** A file of comment lines and rows of numbers reads back as the rows, each
    number rounded as it was printed. *)
Lemma parse_written (str_float : Q -> string) (o : OutputFile) (n : nat)
    (df : DataFrame) (qrows : list (list Q)) :
  (forall t, has_char "010" (str_float t) = false) -> extra o = NoAttrs ->
  rows df = (fmap Some : list Q -> list cell) <$> qrows ->
  Forall (fun r => r <> []) qrows ->
  parse_body (write_lines (header_lines str_float o n ++ body_lines df))
  = Some ((fmap (rounded 6) : list Q -> list Q) <$> qrows).
Proof.
  intros Hstr Hextra Hrows Hne. unfold parse_body.
  assert (Hbody : body_lines df
                  = (fun qs : list Q =>
                       csv_line (format_cell (format_E 6) <$> (Some <$> qs))) <$> qrows).
  { unfold body_lines. rewrite Hrows, <- list_fmap_compose. reflexivity. }
  rewrite data_lines_written.
  - rewrite Hbody. apply mapM_Some_2.
    apply Forall2_fmap, Forall_Forall2_diag.
    eapply Forall_impl; [exact Hne |]. cbn. intros qs Hqs.
    apply (numeric_line 6 qs Hqs).
  - now apply header_lines_comments.
  - rewrite Hbody. apply Forall_fmap.
    eapply Forall_impl; [exact Hne |]. cbn. intros qs Hqs.
    destruct (numeric_line 6 qs Hqs) as (H1 & H2 & H3 & _). auto.
Qed.

Lemma cell_lookup (a : list Q) (i : nat) :
  (i < length a)%nat ->
  default (None : cell) ((Some <$> a : list cell) !! i) = Some (nth i a 0).
Proof.
  intros Hi. rewrite list_lookup_fmap.
  destruct (lookup_lt_is_Some_2 a i Hi) as [x Hx].
  rewrite Hx, (nth_lookup_Some a i 0 x Hx). reflexivity.
Qed.

Lemma rows_frame_of_columns (first : list Q) (others : list (list Q)) :
  (forall a, a ∈ others -> length a = length first) ->
  rows (frame_of_columns first others)
  = (fmap Some : list Q -> list cell) <$> table_rows (first :: others) (length first).
Proof.
  intros Hlen. unfold rows, table_rows, frame_of_columns. cbn [index_len].
  rewrite <- list_fmap_compose.
  apply list_eq. intros i. rewrite !list_lookup_fmap.
  destruct (seq 0 (length first) !! i) as [j|] eqn:Hj; [| reflexivity].
  apply lookup_seq in Hj as [-> Hi]. cbn [fmap option_fmap option_map Nat.add].
  f_equal. unfold row, compose. cbn [columns]. rewrite !fmap_cons. cbn [snd].
  f_equal; [apply cell_lookup, Hi |].
  apply list_eq. intros k.
  rewrite list_lookup_fmap, list_lookup_imap, !list_lookup_fmap.
  destruct (others !! k) as [a|] eqn:Hk; [| reflexivity].
  cbn. f_equal. apply cell_lookup.
  rewrite (Hlen a); [exact Hi |]. eapply list_elem_of_lookup_2, Hk.
Qed.

Lemma table_rows_nonempty (first : list Q) (others : list (list Q)) (n : nat) :
  Forall (fun r => r <> []) (table_rows (first :: others) n).
Proof.
  unfold table_rows. apply Forall_fmap, Forall_forall. intros i _. discriminate.
Qed.

(** ** What the factory leaves on the heap *)

Lemma spectral_factory (simulations : list Simulation) (name : string) (w : world)
    (sim : Simulation) :
  head simulations = Some sim ->
  (forall s, s ∈ simulations ->
     length (luminosity_density_lambda s) = length (wavelength sim)) ->
  from_simulations Spectral simulations name w
  = (Ok {| cls := Spectral; times := time_explosion <$> simulations;
           data_table := TFrame (fresh (dom (frames w))); model_name := name;
           extra := NoAttrs |},
     set_frames
       (<[fresh (dom (frames w))
          := frame_of_columns (wavelength sim)
               (luminosity_density_lambda <$> simulations)]> (frames w)) w).
Proof.
  intros Hhead Hlen.
  destruct simulations as [|s0 rest]; [discriminate |].
  cbn in Hhead. injection Hhead as ->.
  set (arrays := luminosity_density_lambda <$> sim :: rest).
  assert (Harr : forall a, a ∈ arrays -> length a = length (wavelength sim)).
  { intros a Ha. apply list_elem_of_fmap in Ha as (s & -> & Hs). now apply Hlen. }
  pose proof (DataFrame_T_same_length arrays (length (wavelength sim))
                ltac:(discriminate) Harr) as Hdf.
  rewrite (from_simulations_ok Spectral (sim :: rest) name w (fresh (dom (frames w)))
             (pd.DataFrame_T arrays) (wavelength sim)); try discriminate.
  - rewrite Hdf. reflexivity.
  - apply spectral_table.
  - reflexivity.
  - rewrite labels_DataFrame_T. apply wav_not_numbered.
  - rewrite Hdf. reflexivity.
Qed.

Lemma velocity_factory (c : exporter) (simulations : list Simulation) (name : string)
    (w : world) (g : list Q) :
  c = TGas \/ c = Eden ->
  get_velocity_grid_from_simulations simulations = Ok g ->
  well_shaped simulations -> has_values c simulations ->
  from_simulations c simulations name w
  = (Ok {| cls := c; times := time_explosion <$> simulations;
           data_table := TFrame (fresh (dom (frames w))); model_name := name;
           extra := NoAttrs |},
     set_frames
       (<[fresh (dom (frames w))
          := frame_of_columns g (samples c g <$> simulations)]> (frames w)) w).
Proof.
  intros Hc Hg Hws Hval.
  assert (Htable : get_data_table c simulations
                   = VelocityInterpolatedOutputFile.get_data_table c simulations)
    by (destruct Hc as [-> | ->]; reflexivity).
  assert (Hfirst : get_data_first_column c simulations = Ok g)
    by (destruct Hc as [-> | ->]; exact Hg).
  rewrite (from_simulations_ok c simulations name w (fresh (dom (frames w)))
             {| index_len := length g;
                columns := imap (fun i a => (LInt i, (Some <$> a : list cell)))
                             (samples c g <$> simulations) |} g).
  - reflexivity.
  - destruct Hc as [-> | ->]; discriminate.
  - destruct Hc as [-> | ->]; discriminate.
  - rewrite Htable. apply (velocity_table_ok c simulations g w Hg Hws Hval).
  - exact Hfirst.
  - unfold labels. cbn [columns]. rewrite labels_numbered. apply wav_not_numbered.
  - reflexivity.
Qed.

Lemma table_rows_lookup (cols : list (list Q)) (n i : nat) :
  (i < n)%nat ->
  table_rows cols n !! i = Some ((fun col : list Q => nth i col 0) <$> cols).
Proof.
  intros Hi. unfold table_rows.
  rewrite list_lookup_fmap, lookup_seq_lt by exact Hi. reflexivity.
Qed.

Lemma table_rows_length (cols : list (list Q)) (n : nat) :
  length (table_rows cols n) = n.
Proof. unfold table_rows. now rewrite length_fmap, length_seq. Qed.

(** ** Round trips *)

(** Writing a table of numbers and reading the file back gives the rows of
    the table, every number rounded to the seven digits it was printed
    with. *)
Theorem written_file_reads_back (str_float : Q -> string) (o : OutputFile)
    (dest : string) (w : world) (l : nat) (first : list Q) (others : list (list Q)) :
  extra o = NoAttrs ->
  data_table o = TFrame l ->
  frames w !! l = Some (frame_of_columns first others) ->
  (forall a, a ∈ others -> length a = length first) ->
  (forall t, has_char "010" (str_float t) = false) ->
  writable w (path_join dest (Writer.fname o)) = true ->
  exists content,
    Writer.write str_float o dest w
    = (Ok tt, with_file (path_join dest (Writer.fname o)) content w) /\
    parse_body content
    = Some ((fmap (rounded 6) : list Q -> list Q)
              <$> table_rows (first :: others) (length first)) /\
    length (data_lines content) = length first /\
    (forall x, agree_to 7 x (rounded 6 x)).
Proof.
  intros Hextra Ht Hl Hlen Hstr Hw.
  pose proof (rows_frame_of_columns first others Hlen) as Hrows.
  pose proof (table_rows_nonempty first others (length first)) as Hne.
  eexists. split; [| split; [| split]].
  - apply (write_content str_float o dest w l _ Ht Hl Hw).
  - apply (parse_written str_float o _ _ _ Hstr Hextra Hrows Hne).
  - pose proof (parse_written str_float o (index_len (frame_of_columns first others))
                  _ _ Hstr Hextra Hrows Hne) as Hp.
    unfold parse_body in Hp. apply mapM_Some_1, Forall2_length in Hp.
    rewrite Hp, length_fmap. apply table_rows_length.
  - intros x. apply rounded_agrees.
Qed.

Lemma written_file_reads_back_witness :
  (extra spectral_object = NoAttrs /\
   data_table spectral_object = TFrame 0 /\
   frames world_with_table !! 0%nat = Some (frame_of_columns [4000; 5000] [[7; 8]]) /\
   (forall a, a ∈ [[7; 8]] -> length a = length [4000; 5000]) /\
   (forall t, has_char "010" (str_two t) = false) /\
   writable world_with_table (path_join "." (Writer.fname spectral_object)) = true) /\
  exists content,
    Writer.write str_two spectral_object "." world_with_table
    = (Ok tt, with_file (path_join "." (Writer.fname spectral_object)) content
                world_with_table) /\
    parse_body content
    = Some ((fmap (rounded 6) : list Q -> list Q)
              <$> table_rows ([4000; 5000] :: [[7; 8]]) (length [4000; 5000])) /\
    length (data_lines content) = length [4000; 5000] /\
    (forall x, agree_to 7 x (rounded 6 x)).
Proof.
  assert (H1 : extra spectral_object = NoAttrs) by reflexivity.
  assert (H2 : data_table spectral_object = TFrame 0) by reflexivity.
  assert (H3 : frames world_with_table !! 0%nat
               = Some (frame_of_columns [4000; 5000] [[7; 8]])) by reflexivity.
  assert (H4 : forall a, a ∈ [[7; 8]] -> length a = length [4000; 5000]).
  { intros a Ha. apply list_elem_of_singleton in Ha. subst a. reflexivity. }
  assert (H5 : forall t, has_char "010" (str_two t) = false) by reflexivity.
  assert (H6 : writable world_with_table (path_join "." (Writer.fname spectral_object))
               = true) by reflexivity.
  split; [repeat split; assumption |].
  exact (written_file_reads_back str_two spectral_object "." world_with_table 0
           [4000; 5000] [[7; 8]] H1 H2 H3 H4 H5 H6).
Defined.

(** Exporting spectra and reading the file back recovers the wavelength
    column of the first simulation and one luminosity column per simulation:
    every value comes back rounded to the seven significant digits it was
    written with, which agrees with the original to six. *)
Theorem spectra_round_trip (str_float : Q -> string) (simulations : list Simulation)
    (name dest : string) (w : world) (sim : Simulation) :
  head simulations = Some sim ->
  (forall s, s ∈ simulations ->
     length (luminosity_density_lambda s) = length (wavelength sim)) ->
  (forall t, has_char "010" (str_float t) = false) ->
  writable w (path_join dest ("spectra_" ++ name ++ "_tardis.txt")) = true ->
  exists o w1 w2 content parsed,
    from_simulations Spectral simulations name w = (Ok o, w1) /\
    Writer.write str_float o dest w1 = (Ok tt, w2) /\
    files w2 !! path_join dest ("spectra_" ++ name ++ "_tardis.txt") = Some content /\
    parse_body content = Some parsed /\
    length parsed = length (wavelength sim) /\
    (forall (i : nat) x, wavelength sim !! i = Some x ->
       exists r, parsed !! i = Some r /\ length r = S (length simulations) /\
                 r !! 0%nat = Some (rounded 6 x)) /\
    (forall (j : nat) s (i : nat) x,
       simulations !! j = Some s -> luminosity_density_lambda s !! i = Some x ->
       exists r, parsed !! i = Some r /\ r !! S j = Some (rounded 6 x)) /\
    (forall x, agree_to 7 x (rounded 6 x) /\ agree_to 6 x (rounded 6 x)).
Proof.
  intros Hhead Hlen Hstr Hw.
  set (l := fresh (dom (frames w))).
  set (lums := luminosity_density_lambda <$> simulations).
  set (df := frame_of_columns (wavelength sim) lums).
  set (w1 := set_frames (<[l := df]> (frames w)) w).
  set (o := {| cls := Spectral; times := time_explosion <$> simulations;
               data_table := TFrame l; model_name := name; extra := NoAttrs |}).
  assert (Hlums : forall a, a ∈ lums -> length a = length (wavelength sim)).
  { intros a Ha. apply list_elem_of_fmap in Ha as (s & -> & Hs). now apply Hlen. }
  assert (Hl : frames w1 !! l = Some df) by apply lookup_insert_eq.
  pose proof (write_content str_float o dest w1 l df eq_refl Hl Hw) as Hwrite.
  pose proof (parse_written str_float o (index_len df) df _ Hstr eq_refl
                (rows_frame_of_columns (wavelength sim) lums Hlums)
                (table_rows_nonempty (wavelength sim) lums _)) as Hparse.
  pose proof (rounded_agrees 6) as Hagree.
  eexists o, w1, _, _, _.
  split; [apply (spectral_factory simulations name w sim Hhead Hlen) |].
  split; [exact Hwrite |].
  split; [apply lookup_insert_eq |].
  split; [exact Hparse |].
  split; [now rewrite length_fmap, table_rows_length |].
  split; [| split].
  - intros i x Hx.
    assert (Hi : (i < length (wavelength sim))%nat) by (eapply lookup_lt_Some, Hx).
    eexists. rewrite list_lookup_fmap, table_rows_lookup by exact Hi.
    split; [reflexivity |]. split.
    + rewrite !length_fmap. cbn. unfold lums. now rewrite length_fmap.
    + cbn. now rewrite (nth_lookup_Some _ _ _ _ Hx).
  - intros j s i x Hs Hx.
    assert (Hi : (i < length (wavelength sim))%nat).
    { rewrite <- (Hlen s) by (eapply list_elem_of_lookup_2, Hs).
      eapply lookup_lt_Some, Hx. }
    eexists. rewrite list_lookup_fmap, table_rows_lookup by exact Hi.
    split; [reflexivity |].
    rewrite !fmap_cons.
    match goal with |- (_ :: ?t) !! S j = _ => change (t !! j = Some (rounded 6 x)) end.
    unfold lums. rewrite !list_lookup_fmap, Hs. cbn.
    now rewrite (nth_lookup_Some _ _ _ _ Hx).
  - intros x. split; [apply Hagree |].
    apply (agree_to_weaken 7 6); [lia | apply Hagree].
Qed.

Lemma one_simulation_lengths :
  forall s, s ∈ one_simulation ->
    length (luminosity_density_lambda s) = length [1234567 # 1000; 5000].
Proof.
  intros s Hs. unfold one_simulation in Hs.
  apply list_elem_of_singleton in Hs. subst s. reflexivity.
Qed.

Lemma spectra_round_trip_witness :
  (writable empty_world (path_join "." ("spectra_" ++ "model" ++ "_tardis.txt")) = true /\
   forall t, has_char "010" (str_two t) = false) /\
  exists o w1 w2 content parsed,
    from_simulations Spectral one_simulation "model" empty_world = (Ok o, w1) /\
    Writer.write str_two o "." w1 = (Ok tt, w2) /\
    files w2 !! path_join "." ("spectra_" ++ "model" ++ "_tardis.txt") = Some content /\
    parse_body content = Some parsed /\
    length parsed = length [1234567 # 1000; 5000] /\
    (forall (i : nat) x, [1234567 # 1000; 5000] !! i = Some x ->
       exists r, parsed !! i = Some r /\ length r = S (length one_simulation) /\
                 r !! 0%nat = Some (rounded 6 x)) /\
    (forall (j : nat) s (i : nat) x,
       one_simulation !! j = Some s -> luminosity_density_lambda s !! i = Some x ->
       exists r, parsed !! i = Some r /\ r !! S j = Some (rounded 6 x)) /\
    (forall x, agree_to 7 x (rounded 6 x) /\ agree_to 6 x (rounded 6 x)).
Proof.
  assert (H1 : writable empty_world
                 (path_join "." ("spectra_" ++ "model" ++ "_tardis.txt")) = true)
    by reflexivity.
  assert (H2 : forall t, has_char "010" (str_two t) = false) by reflexivity.
  split; [split; assumption |].
  exact (spectra_round_trip str_two one_simulation "model" "." empty_world _
           eq_refl one_simulation_lengths H2 H1).
Defined.

(** ** The fill value in a written file *)

Lemma sentinel_printed : format_E 6 sentinel = "1.000000E-99".
Proof. vm_compute. reflexivity. Qed.

Lemma sentinel_rounded : rounded 6 sentinel == sentinel.
Proof. vm_compute. reflexivity. Qed.


Lemma format_E_no_newline (prec : nat) (t : Q) : has_char "010" (format_E prec t) = false.
Proof. apply format_E_chars, newline_not_in_float. Qed.


(** ** What the writer touches *)



Lemma f_write_frame (path text : string) (w : world) :
  f_write path text w
  = (Ok tt, with_file path (default EmptyString (files w !! path) ++ text) w).
Proof. reflexivity. Qed.

Lemma same_but_file_refl (path : string) (w : world) : same_but_file path w w.
Proof. repeat split. Qed.

Lemma same_but_file_with (path text : string) (w w' : world) :
  same_but_file path w w' -> same_but_file path w (with_file path text w').
Proof.
  intros (Hf & Hw & Hp). repeat split; try assumption.
  intros p Hne. cbn. rewrite lookup_insert_ne by congruence. now apply Hp.
Qed.

Lemma preserves_bind {A B : Type} (P : world -> Prop) (m : M A) (k : A -> M B) :
  preserves P m -> (forall a, preserves P (k a)) -> preserves P (m ≫= k).
Proof.
  intros Hm Hk w Hw. unfold mbind, M_bind.
  specialize (Hm w Hw). destruct (m w) as [[a | e] w1]; cbn in Hm |- *.
  - now apply Hk.
  - exact Hm.
Qed.

Lemma preserves_ret {A : Type} (P : world -> Prop) (a : A) : preserves P (mret a).
Proof. intros w Hw. exact Hw. Qed.

Lemma preserves_lift {A : Type} (P : world -> Prop) (r : result A) :
  preserves P (lift r).
Proof. intros w Hw. exact Hw. Qed.

Lemma preserves_raise {A : Type} (P : world -> Prop) (e : exn) :
  preserves P (raise e : M A).
Proof. intros w Hw. exact Hw. Qed.

Lemma open_w_same (path : string) (w0 : world) :
  preserves (same_but_file path w0) (open_w path).
Proof.
  intros w Hw. unfold open_w. destruct (writable w path); [| exact Hw].
  now apply same_but_file_with.
Qed.

Lemma f_write_same (path text : string) (w0 : world) :
  preserves (same_but_file path w0) (f_write path text).
Proof. intros w Hw. rewrite f_write_frame. now apply same_but_file_with. Qed.

Lemma len_table_same (P : world -> Prop) (t : table) : preserves P (len_table t).
Proof.
  intros w Hw. unfold len_table.
  destruct t as [|l|ls]; [| destruct (frames w !! l) |]; exact Hw.
Qed.

Lemma table_to_csv_same (fmt : Q -> string) (path : string) (t : table) (w0 : world) :
  preserves (same_but_file path w0) (table_to_csv fmt path t).
Proof.
  intros w Hw. unfold table_to_csv.
  destruct t as [|l|ls]; try exact Hw.
  destruct (frames w !! l); [| exact Hw].
  now apply f_write_same.
Qed.




(** ** What the factory and the constructors touch *)

Lemma frame_insert_same (l loc : nat) (column : label) (value : list Q) (w : world) :
  same_but_frame l w (snd (frame_insert l loc column value w)).
Proof.
  unfold frame_insert. destruct (frames w !! l); [| repeat split].
  destruct (pd.insert loc column value _); repeat split.
  intros l' Hne. cbn. now rewrite lookup_insert_ne by congruence.
Qed.

Lemma base_init_same (c : exporter) (times : list Q) (l : nat) (name : string)
    (column : option (list Q)) (w : world) :
  same_but_frame l w
    (snd (CodeComparisonOutputFile.__init__ c times (TFrame l) name column w)).
Proof.
  unfold CodeComparisonOutputFile.__init__, mbind, M_bind.
  destruct column as [col|]; [| repeat split].
  pose proof (frame_insert_same l 0 (LStr "wav") col w) as H.
  destruct (frame_insert l 0 (LStr "wav") col w) as [[[] | e] w1]; exact H.
Qed.

Lemma get_data_table_cases (c : exporter) (simulations : list Simulation) (w : world) :
  (exists e, get_data_table c simulations w = (Raise e, w)) \/
  (exists df,
     get_data_table c simulations w
     = (Ok (TFrame (fresh (dom (frames w)))),
        set_frames (<[fresh (dom (frames w)) := df]> (frames w)) w)).
Proof.
  assert (Hv : (exists e, VelocityInterpolatedOutputFile.get_data_table c simulations w
                          = (Raise e, w)) \/
               (exists df,
                  VelocityInterpolatedOutputFile.get_data_table c simulations w
                  = (Ok (TFrame (fresh (dom (frames w)))),
                     set_frames (<[fresh (dom (frames w)) := df]> (frames w)) w))).
  { unfold VelocityInterpolatedOutputFile.get_data_table, mbind, M_bind, lift.
    destruct (VelocityInterpolatedOutputFile.interpolated_values c simulations)
      as [values | e]; [| left; eauto].
    destruct (np.vstack values) as [stacked | e]; [| left; eauto].
    right. eexists. reflexivity. }
  destruct c; try exact Hv.
  right. eexists. apply spectral_table.
Qed.

(** The factory writes no file and leaves every frame of the caller as it
    was, whether it returns or raises: all it adds is one new frame. *)
Theorem from_simulations_keeps_the_world (c : exporter) (simulations : list Simulation)
    (name : string) (w : world) :
  same_but_frame (fresh (dom (frames w))) w
    (snd (from_simulations c simulations name w)) /\
  frames w !! fresh (dom (frames w)) = None.
Proof.
  split; [| apply not_elem_of_dom, is_fresh].
  unfold from_simulations, mbind, M_bind.
  destruct (get_data_table_cases c simulations w) as [[e ->] | [df ->]];
    [repeat split |].
  set (l := fresh (dom (frames w))).
  set (w1 := set_frames (<[l := df]> (frames w)) w).
  assert (H1 : same_but_frame l w w1).
  { repeat split. intros l' Hne. cbn. now rewrite lookup_insert_ne by congruence. }
  unfold lift. destruct (get_data_first_column c simulations) as [col | e];
    [| exact H1].
  assert (H2 : same_but_frame l w1
                 (snd (call_cls c (CodeComparisonOutputFile.get_times_from_simulations
                                     simulations) (TFrame l) name (Some col) w1))).
  { unfold call_cls. destruct c; try apply base_init_same; repeat split. }
  destruct H1 as (Ha & Hb & Hc). destruct H2 as (Ha' & Hb' & Hc').
  repeat split; try congruence.
  intros l' Hne. rewrite Hc' by exact Hne. now apply Hc.
Qed.

(** ** The grid on degenerate input *)

Lemma for_each_raise {A B : Type} (f : A -> result B) (l : list A) (e : exn) :
  (forall x e', f x = Raise e' -> e' = e) ->
  (exists x, x ∈ l /\ exists e', f x = Raise e') ->
  for_each f l = Raise e.
Proof.
  intros Honly (x & Hx & e' & Hfx).
  induction l as [|y l IH]; [inversion Hx |].
  cbn. destruct (f y) as [b | e''] eqn:Hy; cbn.
  - apply elem_of_cons in Hx as [-> | Hx]; [congruence |].
    rewrite (IH Hx). reflexivity.
  - f_equal. now apply Honly with y.
Qed.

Lemma np_min_raises_only_ValueError (a : list Q) (e : exn) :
  np.min a = Raise e -> e = ValueError.
Proof. destruct a; cbn; congruence. Qed.

(** A simulation with fewer than two shells has no successive difference:
    the grid raises [ValueError], whatever the other simulations are; so it
    does without simulations. *)
Theorem grid_needs_two_shells (simulations : list Simulation) :
  simulations = [] \/
  (exists s, s ∈ simulations /\ (length (v_middle s) < 2)%nat) ->
  get_velocity_grid_from_simulations simulations = Raise ValueError.
Proof.
  intros [-> | (s & Hs & Hlen)]; [reflexivity |].
  unfold get_velocity_grid_from_simulations, min_delta_v.
  rewrite (for_each_raise _ _ ValueError); [reflexivity | |].
  - intros v e. apply np_min_raises_only_ValueError.
  - exists (v_middle s). split.
    + unfold v_middles. apply list_elem_of_fmap. eauto.
    + exists ValueError. destruct (v_middle s) as [|x [|y v]]; cbn in *; [| | lia];
        reflexivity.
Qed.

Lemma grid_needs_two_shells_witness :
  ([sim_of_v [1000; 2000]; sim_of_v [1500]] = [] \/
   exists s, s ∈ [sim_of_v [1000; 2000]; sim_of_v [1500]] /\
             (length (v_middle s) < 2)%nat) /\
  get_velocity_grid_from_simulations [sim_of_v [1000; 2000]; sim_of_v [1500]]
  = Raise ValueError.
Proof.
  assert (H : [sim_of_v [1000; 2000]; sim_of_v [1500]] = [] \/
              exists s, s ∈ [sim_of_v [1000; 2000]; sim_of_v [1500]] /\
                        (length (v_middle s) < 2)%nat).
  { right. exists (sim_of_v [1500]). split; [right; left | cbn; lia]. }
  split; [exact H |].
  exact (grid_needs_two_shells [sim_of_v [1000; 2000]; sim_of_v [1500]] H).
Defined.

(** When no velocity array steps backwards and one of them repeats a
    velocity, the smallest spacing is zero and the quotient that gives the
    number of samples is no number: the grid raises. *)
Theorem grid_rejects_repeated_velocity (simulations : list Simulation) :
  simulations <> [] ->
  (forall s, s ∈ simulations ->
     (2 <= length (v_middle s))%nat /\
     forall d, d ∈ np.diff (v_middle s) -> 0 <= d) ->
  (exists s d, s ∈ simulations /\ d ∈ np.diff (v_middle s) /\ d == 0) ->
  get_velocity_grid_from_simulations simulations = Raise ValueError \/
  get_velocity_grid_from_simulations simulations = Raise OverflowError.
Proof.
  intros Hne Hshape (s0 & d0 & Hs0 & Hd0 & Hzero).
  assert (Hvs : v_middles simulations <> []).
  { unfold v_middles. destruct simulations; [congruence | discriminate]. }
  assert (Hv : forall v, v ∈ v_middles simulations ->
                 (2 <= length v)%nat /\ forall d, d ∈ np.diff v -> 0 <= d).
  { intros v Hin. apply list_elem_of_fmap in Hin as (s & -> & Hs). now apply Hshape. }
  assert (Hnonnil : forall v, v ∈ v_middles simulations -> v <> []).
  { intros v Hin Hnil. destruct (Hv v Hin) as [Hlen _]. rewrite Hnil in Hlen.
    cbn in Hlen. lia. }
  destruct (min_of_mins np.diff (v_middles simulations) Hvs)
    as (delta & Hd & (dv & Hdv & Hin) & Hleast).
  { intros v Hin. apply diff_nonempty, Hv, Hin. }
  destruct (min_of_mins (fun v => v) (v_middles simulations) Hvs Hnonnil)
    as (lo & Hlo & _).
  destruct (max_of_maxs (v_middles simulations) Hvs Hnonnil) as (hi & Hhi & _).
  assert (Hdelta : delta == 0).
  { apply Qle_antisym.
    - rewrite <- Hzero. apply (Hleast (np.diff (v_middle s0))); [| exact Hd0].
      apply list_elem_of_fmap. exists (v_middle s0). split; [reflexivity |].
      unfold v_middles. apply list_elem_of_fmap. eauto.
    - apply list_elem_of_fmap in Hdv as (v & -> & Hvin).
      now apply (Hv v Hvin). }
  unfold get_velocity_grid_from_simulations.
  change (min_delta_v simulations) with
    (ds ← for_each (fun v => np.min (np.diff v)) (v_middles simulations); np.min ds).
  rewrite Hd. cbn [mbind result_bind].
  change (v_min simulations) with
    (ms ← for_each (fun v => np.min v) (v_middles simulations); np.min ms).
  rewrite Hlo. cbn [mbind result_bind]. unfold v_max. rewrite Hhi.
  cbn [mbind result_bind]. unfold N_shells, round_div.
  rewrite (proj2 (Qeq_bool_iff delta 0) Hdelta).
  destruct (Qeq_bool (hi - lo) 0); [left | right]; reflexivity.
Qed.

Lemma grid_rejects_repeated_velocity_witness :
  ([sim_of_v [1000; 1000; 2000]] <> [] /\
   (forall s, s ∈ [sim_of_v [1000; 1000; 2000]] ->
      (2 <= length (v_middle s))%nat /\
      forall d, d ∈ np.diff (v_middle s) -> 0 <= d) /\
   exists s d, s ∈ [sim_of_v [1000; 1000; 2000]] /\ d ∈ np.diff (v_middle s) /\ d == 0) /\
  (get_velocity_grid_from_simulations [sim_of_v [1000; 1000; 2000]] = Raise ValueError \/
   get_velocity_grid_from_simulations [sim_of_v [1000; 1000; 2000]]
   = Raise OverflowError).
Proof.
  assert (H1 : [sim_of_v [1000; 1000; 2000]] <> []) by discriminate.
  assert (H2 : forall s, s ∈ [sim_of_v [1000; 1000; 2000]] ->
                 (2 <= length (v_middle s))%nat /\
                 forall d, d ∈ np.diff (v_middle s) -> 0 <= d).
  { intros s Hs. apply list_elem_of_singleton in Hs. subst s. split; [cbn; lia |].
    intros d Hd. cbn in Hd.
    repeat (apply elem_of_cons in Hd as [-> | Hd]); [| | inversion Hd]; discriminate. }
  assert (H3 : exists s d, s ∈ [sim_of_v [1000; 1000; 2000]] /\
                           d ∈ np.diff (v_middle s) /\ d == 0).
  { exists (sim_of_v [1000; 1000; 2000]), (1000 - 1000).
    split; [left | split; [left | reflexivity]]. }
  split; [split; [exact H1 | split; [exact H2 | exact H3]] |].
  exact (grid_rejects_repeated_velocity [sim_of_v [1000; 1000; 2000]] H1 H2 H3).
Defined.

(** ** Constructors and the caller's table *)

Section Aliasing.

Variable name_zz : gmap string nat.

(** The constructor of the ionization-fraction exporter inserts the first
    column before it looks the species up: for an unknown species it raises
    [KeyError], and the caller's frame keeps the inserted column. *)
Theorem failed_constructor_keeps_column (times : list Q) (l : nat) (name : string)
    (column vel_mid : list Q) (species : string) (w : world) (df : DataFrame) :
  name_zz !! species = None ->
  frames w !! l = Some df ->
  LStr "wav" ∉ labels df ->
  length column = index_len df ->
  IonFracOutputFile.__init__ name_zz times (TFrame l) name (Some column) vel_mid
    species w
  = (Raise (KeyError species),
     set_frames
       (<[l := {| index_len := index_len df;
                  columns := (LStr "wav", (Some <$> column : list cell))
                               :: columns df |}]> (frames w)) w).
Proof.
  intros Hnone Hl Hfresh Hlen.
  rewrite ionfrac_init_unfold.
  unfold CodeComparisonOutputFile.__init__, mbind, M_bind.
  rewrite (frame_insert_ok l _ column df w Hl Hfresh Hlen), Hnone. reflexivity.
Qed.

End Aliasing.

Lemma wav_not_in_one_frame : LStr "wav" ∉ labels one_frame.
Proof. apply not_elem_of_cons. split; [discriminate | apply not_elem_of_nil]. Qed.

Lemma failed_constructor_keeps_column_witness :
  (name_zz_excerpt !! "Xx" = None /\
   frames world_with_frame !! 0%nat = Some one_frame /\
   (LStr "wav" ∉ labels one_frame) /\
   length [4000; 5000] = index_len one_frame) /\
  IonFracOutputFile.__init__ name_zz_excerpt [2] (TFrame 0) "model" (Some [4000; 5000])
    [1000; 2000] "Xx" world_with_frame
  = (Raise (KeyError "Xx"),
     set_frames
       (<[0%nat := {| index_len := index_len one_frame;
                      columns := (LStr "wav", (Some <$> [4000; 5000] : list cell))
                                   :: columns one_frame |}]>
          (frames world_with_frame)) world_with_frame).
Proof.
  assert (H1 : name_zz_excerpt !! "Xx" = None) by reflexivity.
  assert (H2 : frames world_with_frame !! 0%nat = Some one_frame) by reflexivity.
  assert (H4 : length [4000; 5000] = index_len one_frame) by reflexivity.
  split; [split; [exact H1 | split; [exact H2 | split; [exact wav_not_in_one_frame
                                                        | exact H4]]] |].
  exact (failed_constructor_keeps_column name_zz_excerpt [2] 0 "model" [4000; 5000]
           [1000; 2000] "Xx" world_with_frame one_frame H1 H2 wav_not_in_one_frame H4).
Defined.

Lemma insert_taken (loc : nat) (column : label) (value : list Q) (df : DataFrame) :
  column ∈ labels df -> pd.insert loc column value df = Raise ValueError.
Proof.
  intros H. unfold pd.insert. destruct (decide (column ∈ labels df)); [reflexivity |].
  contradiction.
Qed.

(** The constructor changes the frame it is given, so a frame serves one
    exporter: a second construction with a first column on the same frame
    raises [ValueError], the label [wav] being taken, and changes nothing. *)
Theorem second_construction_raises (c c' : exporter) (times times' : list Q) (l : nat)
    (name name' : string) (column column' : list Q) (w : world) (df : DataFrame) :
  frames w !! l = Some df ->
  LStr "wav" ∉ labels df ->
  length column = index_len df ->
  exists o w1,
    CodeComparisonOutputFile.__init__ c times (TFrame l) name (Some column) w
    = (Ok o, w1) /\
    CodeComparisonOutputFile.__init__ c' times' (TFrame l) name' (Some column') w1
    = (Raise ValueError, w1).
Proof.
  intros Hl Hfresh Hlen.
  eexists _, _. split.
  - unfold CodeComparisonOutputFile.__init__, mbind, M_bind.
    rewrite (frame_insert_ok l _ column df w Hl Hfresh Hlen). reflexivity.
  - unfold CodeComparisonOutputFile.__init__, mbind, M_bind, frame_insert.
    cbn [frames set_frames]. rewrite lookup_insert_eq.
    rewrite insert_taken; [reflexivity |].
    rewrite labels_cons. left.
Qed.

Lemma second_construction_raises_witness :
  (frames world_with_frame !! 0%nat = Some one_frame /\
   (LStr "wav" ∉ labels one_frame) /\
   length [4000; 5000] = index_len one_frame) /\
  exists o w1,
    CodeComparisonOutputFile.__init__ Spectral [2] (TFrame 0) "model"
      (Some [4000; 5000]) world_with_frame = (Ok o, w1) /\
    CodeComparisonOutputFile.__init__ TGas [3] (TFrame 0) "other"
      (Some [1000; 2000]) w1 = (Raise ValueError, w1).
Proof.
  assert (H2 : frames world_with_frame !! 0%nat = Some one_frame) by reflexivity.
  assert (H4 : length [4000; 5000] = index_len one_frame) by reflexivity.
  split; [split; [exact H2 | split; [exact wav_not_in_one_frame | exact H4]] |].
  exact (second_construction_raises Spectral TGas [2] [3] 0 "model" "other"
           [4000; 5000] [1000; 2000] world_with_frame one_frame
           H2 wav_not_in_one_frame H4).
Defined.

(** The wavelength array of the first simulation becomes a column of the
    table of luminosities: when it is not as long as the luminosity arrays,
    the factory of the spectra exporter raises [ValueError], and writes no
    file. *)
Theorem spectra_length_mismatch (simulations : list Simulation) (name : string)
    (w : world) (sim : Simulation) (n : nat) :
  head simulations = Some sim ->
  (forall s, s ∈ simulations -> length (luminosity_density_lambda s) = n) ->
  (0 < n)%nat ->
  length (wavelength sim) <> n ->
  exists w',
    from_simulations Spectral simulations name w = (Raise ValueError, w') /\
    files w' = files w.
Proof.
  intros Hhead Hlen Hpos Hne.
  destruct simulations as [|s0 rest]; [discriminate |].
  cbn in Hhead. injection Hhead as ->.
  set (arrays := luminosity_density_lambda <$> sim :: rest).
  assert (Harr : forall a, a ∈ arrays -> length a = n).
  { intros a Ha. apply list_elem_of_fmap in Ha as (s & -> & Hs). now apply Hlen. }
  pose proof (DataFrame_T_same_length arrays n ltac:(discriminate) Harr) as Hdf.
  eexists. split.
  - unfold from_simulations, mbind, M_bind.
    change (get_data_table Spectral (sim :: rest) w)
      with (SpectralOutputFile.get_data_table (sim :: rest) w).
    rewrite spectral_table. fold arrays. cbn [lift get_data_first_column
      SpectralOutputFile.get_data_first_column call_cls].
    unfold CodeComparisonOutputFile.__init__, mbind, M_bind, frame_insert.
    cbn [frames set_frames]. rewrite lookup_insert_eq.
    unfold pd.insert.
    destruct (decide (LStr "wav" ∈ labels (pd.DataFrame_T arrays))) as [Hin |].
    { rewrite labels_DataFrame_T in Hin. now apply wav_not_numbered in Hin. }
    rewrite Hdf. cbn [index_len columns].
    rewrite (proj2 (Nat.eqb_neq n 0)) by lia. cbn [andb].
    rewrite (proj2 (Nat.eqb_neq (length (wavelength sim)) n) Hne). reflexivity.
  - reflexivity.
Qed.

Lemma spectra_length_mismatch_witness :
  (head [uneven_simulation] = Some uneven_simulation /\
   (0 < 2)%nat /\ length (wavelength uneven_simulation) <> 2%nat) /\
  exists w',
    from_simulations Spectral [uneven_simulation] "model" empty_world
    = (Raise ValueError, w') /\
    files w' = files empty_world.
Proof.
  assert (H1 : head [uneven_simulation] = Some uneven_simulation) by reflexivity.
  assert (H2 : (0 < 2)%nat) by lia.
  assert (H3 : length (wavelength uneven_simulation) <> 2%nat) by discriminate.
  split; [split; [exact H1 | split; [exact H2 | exact H3]] |].
  refine (spectra_length_mismatch [uneven_simulation] "model" empty_world
            uneven_simulation 2 H1 _ H2 H3).
  intros s Hs. apply list_elem_of_singleton in Hs. subst s. reflexivity.
Defined.

(** ** The counts in the header *)

Lemma body_lines_numeric (df : DataFrame) (qrows : list (list Q)) :
  rows df = (fmap Some : list Q -> list cell) <$> qrows ->
  body_lines df
  = (fun qs : list Q => csv_line (format_cell (format_E 6) <$> (Some <$> qs))) <$> qrows.
Proof.
  intros Hrows. unfold body_lines. rewrite Hrows, <- list_fmap_compose. reflexivity.
Qed.

Lemma numeric_line_words (prec : nat) (qs : list Q) :
  qs <> [] ->
  length (words (csv_line (format_cell (format_E prec) <$> (Some <$> qs)))) = length qs.
Proof.
  intros Hne. destruct (numeric_line prec qs Hne) as (_ & _ & _ & Hp).
  apply mapM_Some_1, Forall2_length in Hp. now rewrite Hp, length_fmap.
Qed.

(** What a reader finds in a file written from a table of numbers: the two
    counts of the header, as many data lines as the second count says, and
    in every data line one field per column. *)
Lemma written_counts (str_float : Q -> string) (o : OutputFile) (n : nat)
    (df : DataFrame) (first : list Q) (others : list (list Q)) :
  (forall t, has_char "010" (str_float t) = false) -> extra o = NoAttrs ->
  df = frame_of_columns first others ->
  (forall a, a ∈ others -> length a = length first) ->
  let content := write_lines (header_lines str_float o (index_len df) ++ body_lines df) in
  split_on "010" content !! 0%nat = Some ("#NTIMES: " ++ str_nat (length (times o))) /\
  split_on "010" content !! 1%nat
  = Some ("#N" ++ first_column_name (cls o) ++ ": "
          ++ str_nat (length (data_lines content))) /\
  length (data_lines content) = length first /\
  Forall (fun ln => length (words ln) = S (length others)) (data_lines content).
Proof.
  intros Hstr Hextra -> Hlen content.
  pose proof (rows_frame_of_columns first others Hlen) as Hrows.
  pose proof (table_rows_nonempty first others (length first)) as Hne.
  pose proof (body_lines_numeric _ _ Hrows) as Hbody.
  assert (Hnumeric : Forall (fun l => nonempty l = true /\ is_comment l = false /\
                                      has_char "010" l = false)
                       (body_lines (frame_of_columns first others))).
  { rewrite Hbody. apply Forall_fmap.
    eapply Forall_impl; [exact Hne |]. cbn. intros qs Hqs.
    destruct (numeric_line 6 qs Hqs) as (H1 & H2 & H3 & _). auto. }
  assert (Hlines : data_lines content = body_lines (frame_of_columns first others)).
  { apply data_lines_written; [now apply header_lines_comments | exact Hnumeric]. }
  assert (Hcount : length (data_lines content) = length first).
  { rewrite Hlines, Hbody, length_fmap. apply table_rows_length. }
  assert (Hsplit : split_on "010" content
                   = ((header_lines str_float o (index_len (frame_of_columns first others))
                       ++ body_lines (frame_of_columns first others))
                      ++ [EmptyString])%list).
  { apply split_lines, Forall_app. split.
    - eapply Forall_impl; [apply (header_lines_comments str_float o _ Hstr Hextra) |].
      cbn. tauto.
    - eapply Forall_impl; [exact Hnumeric |]. cbn. tauto. }
  split; [| split; [| split]].
  - rewrite Hsplit. reflexivity.
  - rewrite Hsplit, Hcount. reflexivity.
  - exact Hcount.
  - rewrite Hlines, Hbody. apply Forall_fmap, Forall_forall.
    intros qs Hqs.
    change (length (words (csv_line (format_cell (format_E 6) <$> (Some <$> qs))))
            = S (length others)).
    rewrite numeric_line_words.
    + unfold table_rows in Hqs. apply list_elem_of_fmap in Hqs as (i & -> & _).
      now rewrite length_fmap.
    + eapply Forall_forall in Hne; [exact Hne | exact Hqs].
Qed.



(** ** File names *)

Lemma append_inj_l (a s t : string) : a ++ s = a ++ t -> s = t.
Proof.
  induction a as [|x a IH]; [now rewrite !append_nil |].
  rewrite !append_cons. intros H. injection H as H. now apply IH.
Qed.

Lemma append_inj_r (a : string) : forall s t, s ++ a = t ++ a -> s = t.
Proof.
  induction s as [|x s IH]; intros [|y t] H.
  - reflexivity.
  - apply (f_equal String.length) in H.
    rewrite append_nil, length_append in H. cbn in H. lia.
  - apply (f_equal String.length) in H.
    rewrite append_nil, length_append in H. cbn in H. lia.
  - rewrite !append_cons in H. injection H as -> H. f_equal. now apply IH.
Qed.

Lemma data_type_prefix (c c' : exporter) (s s' : string) :
  data_type c ++ s = data_type c' ++ s' -> c = c'.
Proof.
  destruct c, c'; try reflexivity; cbn [data_type]; rewrite !append_cons;
    discriminate.
Qed.

(** The file name tells the class and the model name. *)
Lemma fname_inj (o o' : OutputFile) :
  Writer.fname o = Writer.fname o' -> cls o = cls o' /\ model_name o = model_name o'.
Proof.
  unfold Writer.fname. intros H.
  pose proof (data_type_prefix _ _ _ _ H) as Hc. split; [exact Hc |].
  rewrite Hc in H. apply append_inj_l, append_inj_l in H.
  now apply append_inj_r in H.
Qed.

Lemma path_join_inj (dest f f' : string) : path_join dest f = path_join dest f' -> f = f'.
Proof.
  unfold path_join. destruct dest as [|x dest]; [auto |].
  destruct (String.eqb _ _); intros H.
  - now apply append_inj_l in H.
  - now apply append_inj_l, append_inj_l in H.
Qed.

Lemma write_same_but_file (str_float : Q -> string) (o : OutputFile) (dest : string)
    (w : world) :
  same_but_file (path_join dest (Writer.fname o)) w
    (snd (Writer.write str_float o dest w)).
Proof.
  assert (H : preserves (same_but_file (path_join dest (Writer.fname o)) w)
                (Writer.write str_float o dest)).
  { unfold Writer.write. cbv zeta.
    repeat (apply preserves_bind; [| intros ?]);
      auto using open_w_same, f_write_same, len_table_same, table_to_csv_same. }
  apply H, same_but_file_refl.
Qed.

(** Exports of another class or of another model never share a file: in
    one directory, writing one exporter leaves the file of the other as it
    was, whether the call returns or raises. *)
Theorem exports_do_not_collide (str_float : Q -> string) (o o' : OutputFile)
    (dest : string) (w : world) :
  base_format (cls o) -> base_format (cls o') ->
  cls o <> cls o' \/ model_name o <> model_name o' ->
  path_join dest (Writer.fname o') <> path_join dest (Writer.fname o) /\
  files (snd (Writer.write str_float o dest w)) !! path_join dest (Writer.fname o')
  = files w !! path_join dest (Writer.fname o').
Proof.
  intros _ _ Hne.
  assert (Hpath : path_join dest (Writer.fname o') <> path_join dest (Writer.fname o)).
  { intros H. apply path_join_inj, fname_inj in H as [Hc Hn].
    destruct Hne as [Hne | Hne]; apply Hne; congruence. }
  split; [exact Hpath |].
  destruct (write_same_but_file str_float o dest w) as (_ & _ & Hfiles).
  now apply Hfiles.
Qed.

Lemma exports_do_not_collide_witness :
  (base_format (cls spectral_object) /\ base_format (cls tableless_object) /\
   (cls spectral_object <> cls tableless_object \/
    model_name spectral_object <> model_name tableless_object)) /\
  path_join "." (Writer.fname tableless_object)
  <> path_join "." (Writer.fname spectral_object) /\
  files (snd (Writer.write str_two spectral_object "." world_with_table))
    !! path_join "." (Writer.fname tableless_object)
  = files world_with_table !! path_join "." (Writer.fname tableless_object).
Proof.
  assert (H1 : base_format (cls spectral_object)) by (left; reflexivity).
  assert (H2 : base_format (cls tableless_object)) by (right; left; reflexivity).
  assert (H3 : cls spectral_object <> cls tableless_object \/
               model_name spectral_object <> model_name tableless_object)
    by (left; discriminate).
  split; [split; [exact H1 | split; [exact H2 | exact H3]] |].
  exact (exports_do_not_collide str_two spectral_object tableless_object "."
           world_with_table H1 H2 H3).
Defined.

(** ** What interpolation puts in the table *)

(** A point of the segment between two samples lies between their values. *)
Lemma line_between (x0 x1 f0 f1 x lo hi : Q) :
  x0 <= x -> x < x1 -> lo <= f0 <= hi -> lo <= f1 <= hi ->
  lo <= (f1 - f0) / (x1 - x0) * (x - x0) + f0 <= hi.
Proof.
  intros H0 H1 Hf0 Hf1.
  set (t := (x - x0) / (x1 - x0)).
  assert (Ht0 : 0 <= t) by (unfold t; apply Qle_shift_div_l; lra).
  assert (Ht1 : t <= 1) by (unfold t; apply Qle_shift_div_r; lra).
  assert (E : (f1 - f0) / (x1 - x0) * (x - x0) + f0 == f0 + (f1 - f0) * t)
    by (unfold t; field; lra).
  rewrite E. split; nra.
Qed.

Lemma interp_segment_cons2 (x x0 x1 f0 f1 : Q) (xp fp : list Q) :
  np.interp_segment x (x0 :: x1 :: xp) (f0 :: f1 :: fp)
  = if Qlt_le_dec x x1
    then (if Qeq_bool x0 x then f0 else (f1 - f0) / (x1 - x0) * (x - x0) + f0)
    else np.interp_segment x (x1 :: xp) (f1 :: fp).
Proof. reflexivity. Qed.

Lemma interp_segment_bounds (x lo hi : Q) (xp : list Q) :
  forall fp,
    length xp = length fp -> xp <> [] -> increasing xp ->
    List.hd 0 xp <= x ->
    (forall v, v ∈ fp -> lo <= v <= hi) ->
    lo <= np.interp_segment x xp fp <= hi.
Proof.
  induction xp as [|x0 [|x1 xp] IH]; intros fp Hlen Hne Hinc Hx Hfp.
  - congruence.
  - destruct fp as [|f0 [|f1 fp]]; try discriminate Hlen. cbn. apply Hfp. left.
  - destruct fp as [|f0 [|f1 fp]]; try discriminate Hlen.
    rewrite interp_segment_cons2. cbn in Hx.
    destruct (Qlt_le_dec x x1) as [Hlt | Hge].
    + destruct (Qeq_bool x0 x); [apply Hfp; left |].
      apply line_between; [exact Hx | exact Hlt | apply Hfp; left |].
      apply Hfp. right. left.
    + apply IH.
      * cbn in Hlen |- *. lia.
      * discriminate.
      * apply Hinc.
      * exact Hge.
      * intros v Hv. apply Hfp. now right.
Qed.

(** A sample of [np.interp] is the fill value or lies within the values. *)
Lemma interp1_bounds (x lo hi fill : Q) (xp fp : list Q) :
  length xp = length fp -> xp <> [] -> increasing xp ->
  (forall v, v ∈ fp -> lo <= v <= hi) ->
  np.interp1 x xp fp fill fill = fill \/ lo <= np.interp1 x xp fp fill fill <= hi.
Proof.
  intros Hlen Hne Hinc Hfp. unfold np.interp1.
  destruct (Qlt_le_dec (List.last xp 0) x); [now left |].
  destruct (Qlt_le_dec x (List.hd 0 xp)); [now left |].
  right. now apply interp_segment_bounds.
Qed.

Lemma interp_segment_at_node (x : Q) (xp : list Q) :
  forall fp (j : nat) xj fj,
    length xp = length fp -> increasing xp ->
    xp !! j = Some xj -> fp !! j = Some fj -> x == xj ->
    np.interp_segment x xp fp == fj.
Proof.
  induction xp as [|x0 [|x1 xp] IH]; intros fp j xj fj Hlen Hinc Hxj Hfj Hx.
  - discriminate.
  - destruct fp as [|f0 [|f1 fp]]; try discriminate Hlen.
    destruct j as [|j]; [| destruct j; discriminate].
    cbn in Hfj. injection Hfj as <-. reflexivity.
  - destruct fp as [|f0 [|f1 fp]]; try discriminate Hlen.
    rewrite interp_segment_cons2.
    destruct j as [|j].
    + cbn in Hxj, Hfj. injection Hxj as <-. injection Hfj as <-.
      destruct Hinc as [H01 _].
      destruct (Qlt_le_dec x x1) as [_ | Hge]; [| lra].
      destruct (Qeq_bool x0 x) eqn:E; [reflexivity |].
      apply Qeq_bool_neq in E. exfalso. apply E. now symmetry.
    + change ((x1 :: xp) !! j = Some xj) in Hxj.
      change ((f1 :: fp) !! j = Some fj) in Hfj.
      assert (Hle : x1 <= xj).
      { apply (increasing_head_least (x1 :: xp) x1); [apply Hinc | reflexivity |].
        eapply list_elem_of_lookup_2, Hxj. }
      destruct (Qlt_le_dec x x1) as [Hlt | _]; [lra |].
      apply (IH (f1 :: fp) j xj fj); try assumption.
      * cbn in Hlen |- *. lia.
      * apply Hinc.
Qed.

(** At a sample point [np.interp] gives the value of the sample. *)
Lemma interp1_at_node (x : Q) (xp fp : list Q) (left right : Q) (j : nat) (xj fj : Q) :
  length xp = length fp -> increasing xp ->
  xp !! j = Some xj -> fp !! j = Some fj -> x == xj ->
  np.interp1 x xp fp left right == fj.
Proof.
  intros Hlen Hinc Hxj Hfj Hx.
  assert (Hne : xp <> []) by (intros ->; discriminate).
  assert (Hin : xj ∈ xp) by (eapply list_elem_of_lookup_2, Hxj).
  destruct (head_last_exist xp Hne) as (lo & hi & Hh & Hl & _ & _).
  pose proof (increasing_head_least xp lo Hinc Hh xj Hin).
  pose proof (increasing_last_greatest xp hi Hinc Hl xj Hin).
  unfold np.interp1. rewrite (hd_head _ _ Hh), (last_last _ _ Hl).
  destruct (Qlt_le_dec hi x); [lra |].
  destruct (Qlt_le_dec x lo); [lra |].
  now apply (interp_segment_at_node x xp fp j xj fj).
Qed.

(** On well-formed input the table is built, and the column of simulation
    [i] holds its samples on the grid. *)
Lemma table_columns (c : exporter) (simulations : list Simulation) (w : world) :
  well_shaped simulations -> has_values c simulations ->
  exists g df,
    builds_table c simulations w g df /\
    forall (i : nat) s, simulations !! i = Some s -> column_of df i (samples c g s).
Proof.
  intros Hws Hval.
  destruct (grid_shape simulations Hws)
    as (_ & _ & _ & _ & g & _ & _ & _ & _ & Hg & _).
  eexists g, _. split.
  - split; [exact Hg | apply (velocity_table_ok c simulations g w Hg Hws Hval)].
  - intros i s Hi. unfold column_of. cbn [columns].
    rewrite list_lookup_imap, list_lookup_fmap, Hi. reflexivity.
Qed.





Lemma v_middle_in (simulations : list Simulation) (v : list Q) :
  v ∈ v_middles simulations ->
  exists (i : nat) s, simulations !! i = Some s /\ s ∈ simulations /\ v = v_middle s.
Proof.
  unfold v_middles. change (List.map v_middle simulations) with (v_middle <$> simulations).
  intros Hv. apply list_elem_of_fmap in Hv as (s & -> & Hs).
  destruct (list_elem_of_lookup_1 _ _ Hs) as [i Hi]. eauto.
Qed.

Lemma head_Some_lookup (l : list Q) (x : Q) : head l = Some x -> l !! 0%nat = Some x.
Proof. now rewrite head_lookup. Qed.



(** ** Spectra of unequal length *)

Lemma max_list_attained (ns : list nat) (n : nat) :
  n ∈ ns -> (forall m, m ∈ ns -> (m <= n)%nat) -> max_list ns = n.
Proof.
  intros Hin Hle. apply Nat.le_antisymm.
  - apply Hle, max_list_elem_of. intros ->. inversion Hin.
  - now apply max_list_elem_of_le.
Qed.

Lemma filter_drops {A : Type} (P : A -> bool) (l : list A) (i : nat) (x : A) :
  l !! i = Some x -> P x = false -> (length (List.filter P l) < length l)%nat.
Proof.
  revert i. induction l as [|a l IH]; intros i Hi HP; [discriminate |].
  pose proof (List.filter_length_le P l) as Hle.
  destruct i as [|i].
  - cbn in Hi. injection Hi as ->. cbn. rewrite HP. lia.
  - specialize (IH i Hi HP). cbn. destruct (P a); cbn; lia.
Qed.

Lemma format_cell_chars (c : ascii) (x : cell) :
  not_in_float c -> has_char c (format_cell (format_E 6) x) = false.
Proof. intros Hc. destruct x; [now apply format_E_chars | reflexivity]. Qed.

Lemma csv_line_leading (f : string) (rest : list string) :
  nonempty f = true -> csv_line (f :: rest) = String.concat " " (f :: rest).
Proof. destruct f; [discriminate | reflexivity]. Qed.

(** The line of a row whose first cell is a number: a data line, whose
    words are the fields that are not empty. *)
Lemma leading_number_line (x : Q) (cells : list cell) :
  let fields := format_cell (format_E 6) <$> (Some x :: cells) in
  let line := csv_line fields in
  nonempty line = true /\ is_comment line = false /\ has_char "010" line = false /\
  words line = List.filter nonempty fields.
Proof.
  intros fields line.
  assert (Hchars : forall c, not_in_float c ->
            Forall (fun t => has_char c t = false) fields).
  { intros c Hc. apply Forall_fmap, Forall_forall. intros y _.
    now apply format_cell_chars. }
  assert (Hline : line = String.concat " " fields).
  { unfold line, fields. rewrite fmap_cons. apply csv_line_leading.
    apply format_E_nonempty. }
  rewrite Hline. split; [| split; [| split]].
  - unfold fields. rewrite fmap_cons.
    destruct (format_cell (format_E 6) <$> cells).
    + apply format_E_nonempty.
    + rewrite concat_cons2. apply nonempty_app_l, format_E_nonempty.
  - apply no_hash_not_comment, has_char_concat;
      [discriminate | apply Hchars, hash_not_in_float].
  - apply has_char_concat; [discriminate | apply Hchars, newline_not_in_float].
  - unfold words. rewrite split_on_concat; [reflexivity | discriminate |].
    apply Hchars, space_not_in_float.
Qed.

Lemma pad_beyond (n : nat) (a : list Q) (k : nat) :
  (length a <= k)%nat -> default (None : cell) (pd.pad n a !! k) = None.
Proof.
  intros Hk. unfold pd.pad.
  rewrite lookup_app_r by (rewrite length_fmap; exact Hk).
  destruct (replicate _ _ !! _) as [c|] eqn:E; [| reflexivity].
  apply lookup_replicate in E as [-> _]. reflexivity.
Qed.

(** The factory does not compare the lengths of the spectra.  When none is
    longer than the wavelength array and one is shorter, the file is written
    all the same: the table holds NaN where the short spectrum ends, NaN is
    written as an empty field, and the data lines from there on have fewer
    columns than the [#NTIMES] line announces. *)
Theorem short_spectrum_leaves_gaps (str_float : Q -> string)
    (simulations : list Simulation) (name dest : string) (w : world)
    (sim s : Simulation) (j k : nat) :
  head simulations = Some sim ->
  (forall s', s' ∈ simulations ->
     (length (luminosity_density_lambda s') <= length (wavelength sim))%nat) ->
  (exists s', s' ∈ simulations /\
     length (luminosity_density_lambda s') = length (wavelength sim)) ->
  simulations !! j = Some s ->
  (length (luminosity_density_lambda s) <= k < length (wavelength sim))%nat ->
  (forall t, has_char "010" (str_float t) = false) ->
  writable w (path_join dest ("spectra_" ++ name ++ "_tardis.txt")) = true ->
  exists o w1 w2 content ln,
    from_simulations Spectral simulations name w = (Ok o, w1) /\
    Writer.write str_float o dest w1 = (Ok tt, w2) /\
    files w2 !! path_join dest ("spectra_" ++ name ++ "_tardis.txt") = Some content /\
    split_on "010" content !! 0%nat
    = Some ("#NTIMES: " ++ str_nat (length simulations)) /\
    data_lines content !! k = Some ln /\
    (length (words ln) <= length simulations)%nat.
Proof.
  intros Hhead Hle (s1 & Hs1 & Hfull) Hj Hk Hstr Hw.
  set (N := length (wavelength sim)) in *.
  set (arrays := luminosity_density_lambda <$> simulations).
  set (l := fresh (dom (frames w))).
  assert (Hmax : max_list (length <$> arrays) = N).
  { apply max_list_attained.
    - apply list_elem_of_fmap. exists (luminosity_density_lambda s1).
      split; [now symmetry |]. apply list_elem_of_fmap. eauto.
    - intros m Hm. apply list_elem_of_fmap in Hm as (a & -> & Ha).
      apply list_elem_of_fmap in Ha as (s' & -> & Hs'). now apply Hle. }
  set (cols := imap (fun i a => (LInt i, pd.pad N a)) arrays).
  assert (Hdf : pd.DataFrame_T arrays = {| index_len := N; columns := cols |}).
  { unfold pd.DataFrame_T. now rewrite Hmax. }
  set (df := {| index_len := N;
                columns := (LStr "wav", (Some <$> wavelength sim : list cell)) :: cols |}).
  set (w1 := set_frames (<[l := df]> (frames w)) w).
  set (o := {| cls := Spectral; times := time_explosion <$> simulations;
               data_table := TFrame l; model_name := name; extra := NoAttrs |}).
  assert (Hfactory : from_simulations Spectral simulations name w = (Ok o, w1)).
  { rewrite (from_simulations_ok Spectral simulations name w l (pd.DataFrame_T arrays)
               (wavelength sim)); try discriminate.
    - rewrite Hdf. reflexivity.
    - apply spectral_table.
    - destruct simulations; [discriminate |]. cbn in Hhead. injection Hhead as ->.
      reflexivity.
    - rewrite labels_DataFrame_T. apply wav_not_numbered.
    - rewrite Hdf. reflexivity. }
  assert (Hl : frames w1 !! l = Some df) by apply lookup_insert_eq.
  pose proof (write_content str_float o dest w1 l df eq_refl Hl Hw) as Hwrite.
  assert (Hrow : forall i, (i < N)%nat ->
            row df i
            = Some (nth i (wavelength sim) 0)
                :: ((fun a => default (None : cell) (pd.pad N a !! i)) <$> arrays)).
  { intros i Hi. unfold row, df. cbn [columns]. rewrite fmap_cons. cbn [snd].
    f_equal; [now apply cell_lookup |].
    apply list_eq. intros m. unfold cols, arrays.
    rewrite list_lookup_fmap, list_lookup_imap, !list_lookup_fmap.
    destruct (simulations !! m); reflexivity. }
  assert (Hbody : Forall (fun ln => nonempty ln = true /\ is_comment ln = false /\
                                    has_char "010" ln = false) (body_lines df)).
  { unfold body_lines, rows. rewrite <- list_fmap_compose.
    apply Forall_fmap, Forall_forall. intros i Hi.
    apply elem_of_seq in Hi. change (index_len df) with N in Hi.
    unfold compose. cbn beta. rewrite Hrow by lia.
    destruct (leading_number_line (nth i (wavelength sim) 0)
                ((fun a => default (None : cell) (pd.pad N a !! i)) <$> arrays))
      as (H1 & H2 & H3 & _). auto. }
  assert (Hhead_lines : Forall (fun ln => is_comment ln = true /\
                                          has_char "010" ln = false)
                          (header_lines str_float o (index_len df)))
    by now apply header_lines_comments.
  assert (Hlines : data_lines (write_lines (header_lines str_float o (index_len df)
                                            ++ body_lines df)) = body_lines df)
    by now apply data_lines_written.
  assert (Hsplit : split_on "010" (write_lines (header_lines str_float o (index_len df)
                                                ++ body_lines df))
                   = ((header_lines str_float o (index_len df) ++ body_lines df)
                      ++ [EmptyString])%list).
  { apply split_lines, Forall_app. split.
    - eapply Forall_impl; [exact Hhead_lines |]. cbn. tauto.
    - eapply Forall_impl; [exact Hbody |]. cbn. tauto. }
  eexists o, w1, _, _, _.
  split; [exact Hfactory |].
  split; [exact Hwrite |].
  split; [apply lookup_insert_eq |].
  split; [| split].
  - rewrite Hsplit. cbn [header_lines app lookup list_lookup times o].
    now rewrite length_fmap.
  - rewrite Hlines. unfold body_lines, rows.
    change (index_len df) with N.
    rewrite !list_lookup_fmap, lookup_seq_lt by lia.
    reflexivity.
  - cbn [Nat.add]. rewrite Hrow by lia.
    destruct (leading_number_line (nth k (wavelength sim) 0)
                ((fun a => default (None : cell) (pd.pad N a !! k)) <$> arrays))
      as (_ & _ & _ & Hwords).
    rewrite Hwords.
    apply Nat.lt_succ_r.
    eapply Nat.lt_le_trans.
    + apply (filter_drops nonempty _ (S j) EmptyString); [| reflexivity].
      rewrite fmap_cons.
      change ((format_cell (format_E 6)
                 <$> ((fun a => default (None : cell) (pd.pad N a !! k)) <$> arrays))
                !! j = Some EmptyString).
      unfold arrays. rewrite !list_lookup_fmap, Hj. cbn.
      rewrite pad_beyond by lia. reflexivity.
    + rewrite length_fmap. cbn [length]. rewrite length_fmap. unfold arrays.
      rewrite length_fmap. lia.
Qed.

Lemma ragged_simulations_lengths :
  forall s', s' ∈ ragged_simulations ->
    (length (luminosity_density_lambda s') <= length [4000; 5000])%nat.
Proof.
  intros s' Hs. unfold ragged_simulations in Hs.
  repeat (apply elem_of_cons in Hs as [-> | Hs]); [| | inversion Hs]; cbn; lia.
Qed.

Lemma short_spectrum_leaves_gaps_witness :
  (head ragged_simulations
   = Some {| time_explosion := 2; v_middle := [1000; 2000]; t_electrons := [];
             electron_densities := []; wavelength := [4000; 5000];
             luminosity_density_lambda := [7; 8] |} /\
   ragged_simulations !! 1%nat
   = Some {| time_explosion := 3; v_middle := [1000; 2000]; t_electrons := [];
             electron_densities := []; wavelength := [4000; 5000];
             luminosity_density_lambda := [9] |} /\
   (length [9] <= 1 < length [4000; 5000])%nat /\
   (forall t, has_char "010" (str_two t) = false) /\
   writable empty_world (path_join "." ("spectra_" ++ "model" ++ "_tardis.txt")) = true) /\
  exists o w1 w2 content ln,
    from_simulations Spectral ragged_simulations "model" empty_world = (Ok o, w1) /\
    Writer.write str_two o "." w1 = (Ok tt, w2) /\
    files w2 !! path_join "." ("spectra_" ++ "model" ++ "_tardis.txt") = Some content /\
    split_on "010" content !! 0%nat
    = Some ("#NTIMES: " ++ str_nat (length ragged_simulations)) /\
    data_lines content !! 1%nat = Some ln /\
    (length (words ln) <= length ragged_simulations)%nat.
Proof.
  assert (H1 : head ragged_simulations
               = Some {| time_explosion := 2; v_middle := [1000; 2000];
                         t_electrons := []; electron_densities := [];
                         wavelength := [4000; 5000];
                         luminosity_density_lambda := [7; 8] |}) by reflexivity.
  assert (H2 : ragged_simulations !! 1%nat
               = Some {| time_explosion := 3; v_middle := [1000; 2000];
                         t_electrons := []; electron_densities := [];
                         wavelength := [4000; 5000];
                         luminosity_density_lambda := [9] |}) by reflexivity.
  assert (H3 : (length [9] <= 1 < length [4000; 5000])%nat) by (cbn; lia).
  assert (H4 : forall t, has_char "010" (str_two t) = false) by reflexivity.
  assert (H5 : writable empty_world
                 (path_join "." ("spectra_" ++ "model" ++ "_tardis.txt")) = true)
    by reflexivity.
  split; [repeat split; assumption || (cbn; lia) |].
  refine (short_spectrum_leaves_gaps str_two ragged_simulations "model" "." empty_world
            _ _ 1 1 H1 ragged_simulations_lengths _ H2 H3 H4 H5).
  eexists. split; [left | reflexivity].
Defined.
